(** * A shallow embedding of [worker::BaseWorker] and [worker::AsyncWorker]
    (include/worker/worker.hpp).

    The mutex [status_m_] makes every critical section of the C++ code
    atomic; we model each one as a single function on the [BaseWorker]
    record.  A call that blocks on [status_cv_] is split at the [wait]:
    the part before it is a function, and the wait itself becomes a step
    of the system relation that is enabled only when the wait predicate of
    the source holds (spurious wake-ups re-check the predicate and so add
    no behaviour).  [double] is Rocq's primitive binary64 [float]. *)

From Stdlib Require Import Floats ZArith Ascii String List Bool Lia.
From Stdlib Require Import Relations.Relation_Operators.
From Stdlib Require Import Wf_nat Sorted Permutation.
Import ListNotations.

Module Worker.

(** ** enum class Status *)

Inductive Status := RUNNING | PAUSED | STOPPED | FINISHED.

Definition Status_eqb (a b : Status) : bool :=
  match a, b with
  | RUNNING, RUNNING | PAUSED, PAUSED | STOPPED, STOPPED
  | FINISHED, FINISHED => true
  | _, _ => false
  end.

(** [std::optional<Status> == Status]: an empty optional compares unequal. *)
Definition opt_Status_eqb (o : option Status) (b : Status) : bool :=
  match o with
  | Some a => Status_eqb a b
  | None => false
  end.

(** [std::clamp(v, lo, hi)] as C++17 [alg.clamp] specifies it:
    [lo] if [v < lo], [hi] if [hi < v], otherwise [v]. *)
Definition clamp (v lo hi : float) : float :=
  if PrimFloat.ltb v lo then lo
  else if PrimFloat.ltb hi v then hi
  else v.

(** ** class BaseWorker: the fields guarded by [status_m_], plus
    [progress_] (an atomic) and a count of [status_cv_.notify_all()]
    calls, the observable trace of "wake waiters". *)

Record BaseWorker := mkBaseWorker {
  name_ : string;
  status_ : Status;
  progress_ : float;
  status_change_ : option Status;
  cv_notifies : nat
}.

(** Default member initialisers: [status_ = RUNNING], [progress_ = 0],
    [status_change_] empty. *)
Definition new_BaseWorker (name : string) : BaseWorker :=
  mkBaseWorker name RUNNING 0%float None 0.

Definition set_status (st : Status) (w : BaseWorker) : BaseWorker :=
  mkBaseWorker w.(name_) st w.(progress_) w.(status_change_) w.(cv_notifies).

Definition set_status_change (c : option Status) (w : BaseWorker) : BaseWorker :=
  mkBaseWorker w.(name_) w.(status_) w.(progress_) c w.(cv_notifies).

(** [status_cv_.notify_all()] *)
Definition notify_all (w : BaseWorker) : BaseWorker :=
  mkBaseWorker w.(name_) w.(status_) w.(progress_) w.(status_change_)
    (S w.(cv_notifies)).

(** [void set_progress(double progress) { progress_ = std::clamp(progress, 0., 1.); }] *)
Definition set_progress (progress : float) (w : BaseWorker) : BaseWorker :=
  mkBaseWorker w.(name_) w.(status_) (clamp progress 0 1) w.(status_change_)
    w.(cv_notifies).

(** [bool terminal_status() const] *)
Definition terminal_status (w : BaseWorker) : bool :=
  Status_eqb w.(status_) STOPPED || Status_eqb w.(status_) FINISHED.

(** The exceptions the controller-side calls throw. *)
Inductive worker_error :=
| logic_error (what : string)          (* std::logic_error *)
| future_error_no_state.               (* std::future_error(future_errc::no_state) *)

(** *** BaseWorker::pause *)
Definition pause (w : BaseWorker) : worker_error + BaseWorker :=
  if negb (Status_eqb w.(status_) RUNNING) then
    inl (logic_error "Worker must be running to preform pause action")
  else inr (set_status_change (Some PAUSED) w).

(** predicate of [status_cv_.wait] in [pause] *)
Definition pause_wait_done (w : BaseWorker) : bool :=
  Status_eqb w.(status_) PAUSED || terminal_status w.

(** *** BaseWorker::restart *)
Definition restart (w : BaseWorker) : worker_error + BaseWorker :=
  if negb (Status_eqb w.(status_) PAUSED) then
    inl (logic_error "Worker must be paused to preform restart action")
  else inr (notify_all (set_status_change (Some RUNNING) w)).

Definition restart_wait_done (w : BaseWorker) : bool :=
  Status_eqb w.(status_) RUNNING || terminal_status w.

(** *** BaseWorker::stop *)
Definition stop (w : BaseWorker) : worker_error + BaseWorker :=
  if negb (Status_eqb w.(status_) RUNNING) && negb (Status_eqb w.(status_) PAUSED) then
    inl (logic_error "Worker must be running or paused to preform stop action")
  else inr (notify_all (set_status_change (Some STOPPED) w)).

Definition stop_wait_done (w : BaseWorker) : bool := terminal_status w.

(** *** BaseWorker::yield

    [yield] either returns (with its boolean result) or reaches the
    [status_cv_.wait] of the pause branch. *)
Inductive yield_result :=
| YReturned (continue : bool) (w : BaseWorker)
| YWaiting (w : BaseWorker).

(** the tail of [yield]: [if (status_change_ == STOPPED) return false; return true;] *)
Definition yield_stop_check (w : BaseWorker) : yield_result :=
  if opt_Status_eqb w.(status_change_) STOPPED then YReturned false w
  else YReturned true w.

Definition yield (progress : float) (w : BaseWorker) : yield_result :=
  let w := set_progress progress w in
  if opt_Status_eqb w.(status_change_) PAUSED then
    YWaiting (notify_all (set_status PAUSED (set_status_change None w)))
  else yield_stop_check w.

(** predicate of the [status_cv_.wait] inside [yield] *)
Definition yield_wait_done (w : BaseWorker) : bool :=
  opt_Status_eqb w.(status_change_) RUNNING || opt_Status_eqb w.(status_change_) STOPPED.

(** leaving the wait: [status_ = RUNNING; status_cv_.notify_all();] and the
    stop check; [None] while the predicate is false (the worker sleeps). *)
Definition yield_wake (w : BaseWorker) : option yield_result :=
  if yield_wait_done w then Some (yield_stop_check (notify_all (set_status RUNNING w)))
  else None.

(** *** BaseWorker::worker_done *)
Definition worker_done (w : BaseWorker) : BaseWorker :=
  let w := set_status
             (if negb (opt_Status_eqb w.(status_change_) STOPPED) then FINISHED
              else STOPPED) w in
  let w := if Status_eqb w.(status_) FINISHED then set_progress 1 w else w in
  notify_all w.

(** ** Rendering: [operator<<(std::ostream&, Status)] and
    [operator<<(std::ostream&, const BaseWorker&)] *)

Definition Status_to_string (s : Status) : string :=
  match s with
  | RUNNING => "running"
  | PAUSED => "paused"
  | STOPPED => "stopped"
  | FINISHED => "finished"
  end.

Fixpoint spaces (n : nat) : string :=
  match n with
  | O => EmptyString
  | S k => String " "%char (spaces k)
  end.

(** [os << std::setw(w) << s]: right-aligned, padded with the fill
    character (a space) up to [w] characters; never truncates. *)
Definition setw (w : nat) (s : string) : string :=
  spaces (w - String.length s) ++ s.

Fixpoint decimal_digits (fuel : nat) (n : Z) (acc : string) : string :=
  match fuel with
  | O => acc
  | S f =>
      let acc := String (Ascii.ascii_of_nat (48 + Z.to_nat (n mod 10))) acc in
      if (n <? 10)%Z then acc else decimal_digits f (n / 10) acc
  end.

(** [std::round] on a binary64 value, as sign and magnitude: halfway cases
    are rounded away from zero; [None] for a NaN or an infinity. *)
Definition round_sign_magnitude (x : float) : option (bool * Z) :=
  match Prim2SF x with
  | S754_zero s => Some (s, 0%Z)
  | S754_finite s m e =>
      if (0 <=? e)%Z then Some (s, Z.shiftl (Zpos m) e)
      else let d := (2 ^ (- e))%Z in Some (s, ((Zpos m + d / 2) / d)%Z)
  | _ => None
  end.

(** [os << std::round(x)] with the default stream format ([%g], precision
    6).  The value is integral, so [%g] prints its digits with a leading
    minus for a negative sign (also ["-0"]).  Here [x] is
    [progress() * 100] with [0 < progress() <= 1], so the magnitude never
    reaches [10^6], where [%g] would switch to the exponent form. *)
Definition ostream_rounded (x : float) : string :=
  match round_sign_magnitude x with
  | Some (neg, n) => (if neg then "-" else "") ++ decimal_digits 20 n EmptyString
  | None => if PrimFloat.eqb x x then "inf" else "nan"
  end.

(** include/worker/worker.hpp, [operator<<(std::ostream&, const BaseWorker&)] *)
Definition render (w : BaseWorker) : string :=
  let worker_status := w.(status_) in
  "worker " ++ setw 20 w.(name_) ++ " - " ++ setw 10 (Status_to_string worker_status) ++
  (if (Status_eqb worker_status RUNNING || Status_eqb worker_status PAUSED)
      && PrimFloat.ltb 0 w.(progress_)
   then " (" ++ setw 3 (ostream_rounded (w.(progress_) * 100)%float) ++ "% done)"
   else "").

(** worker.h (the earlier copy of the header),
    [operator<<(std::ostream&, BaseWorker&)]: no [setw], no progress guard. *)
Definition render_legacy (w : BaseWorker) : string :=
  let worker_status := w.(status_) in
  "worker " ++ w.(name_) ++ " - " ++ Status_to_string worker_status ++
  (if Status_eqb worker_status RUNNING || Status_eqb worker_status PAUSED
   then " (" ++ ostream_rounded (w.(progress_) * 100)%float ++ "% done)"
   else "").

(** ** class AsyncWorker<Function, Args...>

    The worker thread runs [work]: the payload [f(yield_func, args...)],
    which may call [yield] any number of times and then returns a value
    or throws; on a return [worker_done()] runs and the value is returned
    from [work], which stores it in the future's shared state; a throw
    leaves [work] at once (no [worker_done]) and the exception is stored.
    The payload is arbitrary: each of its choices is a step below.

    The controller is one thread ("Instances must be modified ... from a
    single thread"): it issues [pause], [restart], [stop] or [result] and
    blocks in the call's wait until its predicate holds. *)

Section AsyncWorker.

Variables (R E : Type).  (* function_return_t, and the payload's exception type *)

Inductive outcome := Value (v : R) | Raised (e : E).

Inductive worker_pc :=
| WPayload                  (* running the payload *)
| WYieldWait                (* blocked in the status_cv_.wait of yield *)
| WExiting (o : outcome)    (* leaving work(), o not yet in the future *)
| WDone.                    (* work() has returned; the thread is gone *)

Inductive controller_pc :=
| CIdle | CPauseWait | CRestartWait | CStopWait | CResultWait.

Record Sys := mkSys {
  bw : BaseWorker;
  wpc : worker_pc;
  cpc : controller_pc;
  future_valid : bool;           (* future_.valid() *)
  future_state : option outcome; (* the future's shared state, once ready *)
  obtained : list outcome        (* what result() delivered, in order *)
}.

Definition with_bw (w : BaseWorker) (s : Sys) : Sys :=
  mkSys w s.(wpc) s.(cpc) s.(future_valid) s.(future_state) s.(obtained).
Definition with_wpc (p : worker_pc) (s : Sys) : Sys :=
  mkSys s.(bw) p s.(cpc) s.(future_valid) s.(future_state) s.(obtained).
Definition with_cpc (c : controller_pc) (s : Sys) : Sys :=
  mkSys s.(bw) s.(wpc) c s.(future_valid) s.(future_state) s.(obtained).

(** [AsyncWorker(name, f, args...)]: the base is default-initialised and
    [std::async(std::launch::async, ...)] starts the worker thread. *)
Definition new_AsyncWorker (name : string) : Sys :=
  mkSys (new_BaseWorker name) WPayload CIdle true None [].

(** [result()]: [if (!future_.valid()) throw future_error(no_state);]
    and then [future_.get()], which blocks until the state is ready. *)
Definition result (s : Sys) : worker_error + Sys :=
  if negb s.(future_valid) then inl future_error_no_state
  else inr (with_cpc CResultWait s).

(** [future_.get()] returning: the state is consumed, [valid()] is false. *)
Definition result_get (o : outcome) (s : Sys) : Sys :=
  mkSys s.(bw) s.(wpc) CIdle false s.(future_state) (s.(obtained) ++ [o]).

Inductive step : Sys -> Sys -> Prop :=
(* worker thread *)
| st_yield_return p b w' s :
    s.(wpc) = WPayload -> yield p s.(bw) = YReturned b w' ->
    step s (with_bw w' s)
| st_yield_block p w' s :
    s.(wpc) = WPayload -> yield p s.(bw) = YWaiting w' ->
    step s (with_wpc WYieldWait (with_bw w' s))
| st_yield_wake b w' s :
    s.(wpc) = WYieldWait -> yield_wake s.(bw) = Some (YReturned b w') ->
    step s (with_wpc WPayload (with_bw w' s))
| st_payload_return v s :
    s.(wpc) = WPayload ->
    step s (with_wpc (WExiting (Value v)) (with_bw (worker_done s.(bw)) s))
| st_payload_throw e s :
    s.(wpc) = WPayload ->
    step s (with_wpc (WExiting (Raised e)) s)
| st_work_exit o s :
    s.(wpc) = WExiting o ->
    step s (mkSys s.(bw) WDone s.(cpc) s.(future_valid) (Some o) s.(obtained))
(* controller thread *)
| st_pause w' s :
    s.(cpc) = CIdle -> pause s.(bw) = inr w' -> step s (with_cpc CPauseWait (with_bw w' s))
| st_pause_return s :
    s.(cpc) = CPauseWait -> pause_wait_done s.(bw) = true -> step s (with_cpc CIdle s)
| st_restart w' s :
    s.(cpc) = CIdle -> restart s.(bw) = inr w' -> step s (with_cpc CRestartWait (with_bw w' s))
| st_restart_return s :
    s.(cpc) = CRestartWait -> restart_wait_done s.(bw) = true -> step s (with_cpc CIdle s)
| st_stop w' s :
    s.(cpc) = CIdle -> stop s.(bw) = inr w' -> step s (with_cpc CStopWait (with_bw w' s))
| st_stop_return s :
    s.(cpc) = CStopWait -> stop_wait_done s.(bw) = true -> step s (with_cpc CIdle s)
| st_result s' s :
    s.(cpc) = CIdle -> result s = inr s' -> step s s'
| st_result_return o s :
    s.(cpc) = CResultWait -> s.(future_state) = Some o -> step s (result_get o s).

Inductive reachable : Sys -> Prop :=
| reach_new name : reachable (new_AsyncWorker name)
| reach_step s s' : reachable s -> step s s' -> reachable s'.

Definition steps : Sys -> Sys -> Prop := clos_refl_trans_1n Sys step.

End AsyncWorker.

Arguments Value {R E} v.
Arguments Raised {R E} e.
Arguments WPayload {R E}.
Arguments WYieldWait {R E}.
Arguments WExiting {R E} o.
Arguments WDone {R E}.
Arguments mkSys {R E} bw wpc cpc future_valid future_state obtained.
Arguments bw {R E} s.
Arguments wpc {R E} s.
Arguments cpc {R E} s.
Arguments future_valid {R E} s.
Arguments future_state {R E} s.
Arguments obtained {R E} s.
Arguments with_bw {R E} w s.
Arguments with_wpc {R E} p s.
Arguments with_cpc {R E} c s.
Arguments result {R E} s.
Arguments result_get {R E} o s.
Arguments step {R E} _ _.
Arguments reachable {R E} _.
Arguments steps {R E} _ _.

(** ** ~BaseWorker(): [if (!terminal_status()) std::terminate();].
    [true] when destruction terminates the program.  The destructor of
    [AsyncWorker] first destroys [future_], which waits for [work()]. *)
Definition BaseWorker_destructor_terminates (w : BaseWorker) : bool :=
  negb (terminal_status w).

(** ** Example payloads (example_workers.hpp)

    A payload sees [yield] only through its answers: [answers i] is what
    its [i]-th [yield] call (counting from 0) returns.  Each model returns
    the payload's result together with the arguments it passed to
    [yield], in order (their number is the number of [yield] calls). *)

(** [double] of a non-negative integer (exact below 2^53). *)
Definition double_of_nat (n : nat) : float := PrimFloat.of_uint63 (Uint63.of_Z (Z.of_nat n)).

(** [std::uint64_t] arithmetic *)
Definition u64 (z : Z) : Z := z mod 2 ^ 64.

(** [fibonacci_slow(yield, n)] for [n >= 0] (a negative [n] never reaches
    the base cases).  [i] is the index of the next [yield] call; the
    second component of the result is the index after the call returns.
    [return -1;] converts to [std::uint64_t], i.e. [2^64 - 1].  The order in
    which the two operands of [+] are evaluated is unspecified in C++;
    [left_first] is the order the compiler chose for that one expression
    ([true]: [fibonacci_slow(yield, n - 1)] first). *)
Fixpoint fibonacci_slow (left_first : bool) (answers : nat -> bool) (n : nat) (i : nat)
    : Z * nat :=
  match n with
  | O => (0%Z, i)
  | S O => (1%Z, i)
  | S (S k as m) =>
      if negb (answers i) then (u64 (-1), S i)
      else if left_first then
        let (a, i1) := fibonacci_slow left_first answers m (S i) in
        let (b, i2) := fibonacci_slow left_first answers k i1 in
        (u64 (a + b), i2)
      else
        let (b, i1) := fibonacci_slow left_first answers k (S i) in
        let (a, i2) := fibonacci_slow left_first answers m i1 in
        (u64 (a + b), i2)
  end.

(** [std::min_element(first, last)] on a non-empty range: the position of
    the first smallest element (an element replaces the best one only when strictly smaller). *)
Fixpoint min_element_from (best : Z) (best_i i : nat) (l : list Z) : nat :=
  match l with
  | [] => best_i
  | x :: t =>
      if (x <? best)%Z then min_element_from x i (S i) t
      else min_element_from best best_i (S i) t
  end.

Definition min_element (l : list Z) : nat :=
  match l with
  | [] => 0
  | x :: t => min_element_from x 0 1 t
  end.

Fixpoint set_nth (l : list Z) (j : nat) (v : Z) : list Z :=
  match l, j with
  | [], _ => []
  | _ :: t, O => v :: t
  | x :: t, S j => x :: set_nth t j v
  end.

(** [std::iter_swap(it, it + j)] with [it] the first element of [l]
    ([j < length l]) *)
Definition iter_swap_head (l : list Z) (j : nat) : list Z :=
  match l, j with
  | [], _ => []
  | _, O => l
  | x :: t, S j' => nth j' t 0%Z :: set_nth t j' x
  end.

(** The loop of [selection_sort(yield, first, last)] over the suffix
    [suffix] that starts at [it]; [n_sorted] counts the iterations done so
    far (it is also the index of the next [yield] call).  [fuel] is the
    length of [suffix]. *)
Fixpoint selection_sort_loop (answers : nat -> bool) (distance : float)
    (fuel n_sorted : nat) (suffix : list Z) : list Z * list float :=
  match fuel with
  | O => (suffix, [])
  | S fuel =>
      match iter_swap_head suffix (min_element suffix) with
      | [] => ([], [])                        (* it == last: the loop ends *)
      | m :: rest =>
          let arg := (double_of_nat (S n_sorted) / distance)%float in
          if negb (answers n_sorted) then (m :: rest, [arg])   (* break *)
          else
            let (r, args) := selection_sort_loop answers distance fuel (S n_sorted) rest in
            (m :: r, arg :: args)
      end
  end.

(** [selection_sort] on the whole vector (the [selection_sort] factory
    lambda sorts its copy and returns it). *)
Definition selection_sort (answers : nat -> bool) (v : list Z) : list Z * list float :=
  selection_sort_loop answers (double_of_nat (length v)) (length v) 0 v.

(** [dummy_worker(yield, loop_n, sleep_ms)]: [sleep_ms] only delays. *)
Fixpoint dummy_worker_loop (answers : nat -> bool) (loop_n : Z) (fuel i : nat) : list float :=
  match fuel with
  | O => []
  | S fuel =>
      let arg := (double_of_nat i / PrimFloat.of_uint63 (Uint63.of_Z loop_n))%float in
      if negb (answers i) then [arg]
      else arg :: dummy_worker_loop answers loop_n fuel (S i)
  end.

Definition dummy_worker (answers : nat -> bool) (loop_n : Z) : list float :=
  dummy_worker_loop answers loop_n (Z.to_nat loop_n) 0.

(** [file_writer(yield, n_lines, line_length)]: every iteration writes one
    line of random letters; only lines with [i % 100 == 0] call [yield].
    The model keeps the number of lines written and the [yield] arguments. *)
Fixpoint file_writer_loop (answers : nat -> bool) (n_lines : Z) (fuel i calls : nat)
    : nat * list float :=
  match fuel with
  | O => (i, [])
  | S fuel =>
      (* line i has been written *)
      if Nat.eqb (Nat.modulo i 100) 0 then
        let arg := (double_of_nat i / PrimFloat.of_uint63 (Uint63.of_Z n_lines))%float in
        if negb (answers calls) then (S i, [arg])
        else let (n, args) := file_writer_loop answers n_lines fuel (S i) (S calls) in
             (n, arg :: args)
      else file_writer_loop answers n_lines fuel (S i) calls
  end.

Definition file_writer (answers : nat -> bool) (n_lines : Z) : nat * list float :=
  file_writer_loop answers n_lines (Z.to_nat n_lines) 0 0.

(** ** WorkersManagerCLI (workers_manager.cpp) *)

Local Open Scope string_scope.

(** [boost::is_any_of(" \t")] *)
Definition is_delim (c : ascii) : bool :=
  Ascii.eqb c " "%char || Ascii.eqb c (Ascii.ascii_of_nat 9).

(** [boost::split(tokens, command, is_any_of(" \t"), token_compress_on)]:
    the segments between maximal runs of delimiters (a leading or trailing
    run gives an empty first or last token; the empty input gives one
    empty token).  [cur] is the token being read, [in_delim] is set inside
    a run of delimiters. *)
Fixpoint split_aux (s : string) (cur : string) (in_delim : bool) : list string :=
  match s with
  | EmptyString => [cur]
  | String c s' =>
      if is_delim c then
        if in_delim then split_aux s' cur true
        else cur :: split_aux s' EmptyString true
      else split_aux s' (cur ++ String c EmptyString) false
  end.

Definition split_command (command : string) : list string :=
  split_aux command EmptyString false.

(** [std::stoi(str)] ([std::strtol] in base 10, then the [int] range check). *)
Inductive stoi_result := StoiOk (v : Z) | StoiInvalidArgument | StoiOutOfRange.

Definition is_space (c : ascii) : bool :=
  let n := Ascii.nat_of_ascii c in Nat.eqb n 32 || (Nat.leb 9 n && Nat.leb n 13).

Definition digit_value (c : ascii) : option Z :=
  let n := Ascii.nat_of_ascii c in
  if Nat.leb 48 n && Nat.leb n 57 then Some (Z.of_nat (n - 48)) else None.

(** the longest run of digits at the front: its value and length *)
Fixpoint read_digits (s : string) (acc : Z) (len : nat) : Z * nat :=
  match s with
  | String c s' =>
      match digit_value c with
      | Some d => read_digits s' (acc * 10 + d) (S len)
      | None => (acc, len)
      end
  | EmptyString => (acc, len)
  end.

Fixpoint skip_spaces (s : string) : string :=
  match s with
  | String c s' => if is_space c then skip_spaces s' else s
  | EmptyString => s
  end.

Definition INT_MIN : Z := (- 2 ^ 31)%Z.
Definition INT_MAX : Z := (2 ^ 31 - 1)%Z.

Definition stoi (str : string) : stoi_result :=
  let s := skip_spaces str in
  let '(neg, s) :=
    match s with
    | String c s' =>
        if Ascii.eqb c "-"%char then (true, s')
        else if Ascii.eqb c "+"%char then (false, s')
        else (false, s)
    | EmptyString => (false, s)
    end in
  let '(v, len) := read_digits s 0 0 in
  if Nat.eqb len 0 then StoiInvalidArgument
  else
    let v := if neg then (- v)%Z else v in
    if (v <? INT_MIN)%Z || (INT_MAX <? v)%Z then StoiOutOfRange else StoiOk v.

Inductive control_op := OpPause | OpRestart | OpStop.

(** What one call of [execute_command] does. *)
Inductive cli_action :=
| CliNothing                                  (* returns without output *)
| CliStatus                                   (* prints the status table *)
| CliPrint (msg : string)                     (* prints one message line *)
| CliControl (op : control_op) (index : nat). (* calls op on workers_[index] *)

Definition size_t_to_string (n : nat) : string := decimal_digits 20 (Z.of_nat n) EmptyString.

Definition msg_range (n_workers : nat) : string :=
  "Worker id should be in [1, " ++ size_t_to_string n_workers ++ "] range".

(** [void execute_command(std::vector<std::string>& tokenized_comand)] for a
    manager of [n_workers] workers. *)
Definition execute_command (n_workers : nat) (tokens : list string) : cli_action :=
  match tokens with
  | [] | EmptyString :: _ => CliNothing
  | [main_command] =>
      if String.eqb main_command "status" then CliStatus
      else CliPrint "Unrecognized command format"
  | [main_command; arg] =>
      match stoi arg with
      | StoiInvalidArgument => CliPrint "Second argument should be a number"
      | StoiOutOfRange => CliPrint (msg_range n_workers)
      | StoiOk id =>
          if (id <=? 0)%Z then CliPrint (msg_range n_workers)    (* "Negative or zero id" *)
          else if Nat.leb n_workers (Z.to_nat (id - 1)) then
            CliPrint (msg_range n_workers)                          (* workers_.at(id - 1) *)
          else if String.eqb main_command "pause" then CliControl OpPause (Z.to_nat (id - 1))
          else if String.eqb main_command "restart" then CliControl OpRestart (Z.to_nat (id - 1))
          else if String.eqb main_command "stop" then CliControl OpStop (Z.to_nat (id - 1))
          else CliPrint "Unrecognized command format"
      end
  | _ => CliPrint "Unrecognized command format"
  end.

(** the control call on the chosen worker: a [std::logic_error] is caught
    and printed; otherwise the request is made (the success message is
    printed once the call's wait returns). *)
Definition run_control (op : control_op) (w : BaseWorker) : string * BaseWorker :=
  let r := match op with OpPause => pause w | OpRestart => restart w | OpStop => stop w end in
  match r with
  | inl (logic_error what) => ("Error occurred while processing command: " ++ what, w)
  | inl future_error_no_state => ("", w)   (* not thrown by these calls *)
  | inr w' =>
      (match op with
       | OpPause => "Worker has been paused"
       | OpRestart => "Worker has been restarted"
       | OpStop => "Worker has been stopped"
       end, w')
  end.

(** the [status] command's lines: [std::setw(5) << i + 1 << " | " << *workers_[i]] *)
Fixpoint status_lines_from (i : nat) (ws : list BaseWorker) : list string :=
  match ws with
  | [] => []
  | w :: ws => (setw 5 (size_t_to_string (S i)) ++ " | " ++ render w) :: status_lines_from (S i) ws
  end.

Definition status_lines (ws : list BaseWorker) : list string :=
  "Workers status:" :: status_lines_from 0 ws.

(** [workers_[i]] after a call on it; [std::vector::at] has already
    checked [i]. *)
Fixpoint list_update {A : Type} (l : list A) (i : nat) (x : A) : list A :=
  match l, i with
  | [], _ => []
  | _ :: t, O => x :: t
  | y :: t, S i => y :: list_update t i x
  end.

(** One iteration of [mainloop] after [std::getline]: the lines printed and
    the workers as the control call leaves them when it reaches its wait
    (its success message is printed once the wait returns). *)
Definition execute_line (workers : list BaseWorker) (command : string)
    : list string * list BaseWorker :=
  match execute_command (length workers) (split_command command) with
  | CliNothing => ([], workers)
  | CliStatus => (status_lines workers, workers)
  | CliPrint msg => ([msg], workers)
  | CliControl op i =>
      match nth_error workers i with
      | Some w => let (msg, w') := run_control op w in ([msg], list_update workers i w')
      | None => ([], workers)
      end
  end.

Local Close Scope string_scope.

(** [fibonacci_slow(yield, n)] with [n] the C++ [int], negative values
    included (for those the base cases are never reached, so only a
    refusing [yield] ends the recursion).  [fuel] bounds the depth of the
    recursion; [None] when it runs out, or when [n - 2] would leave the
    range of [int] (signed overflow: undefined behaviour).  Otherwise the
    body and the evaluation order [left_first] are those of
    [fibonacci_slow] above. *)
Fixpoint fibonacci_slow_int (left_first : bool) (answers : nat -> bool) (fuel : nat)
    (n : Z) (i : nat) : option (Z * nat) :=
  match fuel with
  | O => None
  | S f =>
      if (n =? 0)%Z then Some (0%Z, i)
      else if (n =? 1)%Z then Some (1%Z, i)
      else if negb (answers i) then Some (u64 (-1), S i)
      else if (n - 2 <? INT_MIN)%Z then None
      else if left_first then
        match fibonacci_slow_int left_first answers f (n - 1) (S i) with
        | Some (a, i1) =>
            match fibonacci_slow_int left_first answers f (n - 2) i1 with
            | Some (b, i2) => Some (u64 (a + b), i2)
            | None => None
            end
        | None => None
        end
      else
        match fibonacci_slow_int left_first answers f (n - 2) (S i) with
        | Some (b, i1) =>
            match fibonacci_slow_int left_first answers f (n - 1) i1 with
            | Some (a, i2) => Some (u64 (a + b), i2)
            | None => None
            end
        | None => None
        end
  end.

End Worker.

(** * Properties *)

Module WorkerFacts.
Import Worker.
Local Open Scope string_scope.

(** The transitions the specification allows (a self-loop is no transition). *)
Definition legal_transition (a b : Status) : bool :=
  match a, b with
  | RUNNING, PAUSED | PAUSED, RUNNING | RUNNING, STOPPED | PAUSED, STOPPED
  | RUNNING, FINISHED => true
  | _, _ => false
  end.

(** The shape of every reachable state: who may write [status_] and when
    the pending STOPPED request is read. *)
Definition sys_inv {R E : Type} (s : Sys R E) : Prop :=
  (s.(wpc) = WPayload -> s.(bw).(status_) = RUNNING) /\
  (s.(wpc) = WYieldWait -> s.(bw).(status_) = PAUSED) /\
  (s.(bw).(status_) = STOPPED -> s.(bw).(status_change_) = Some STOPPED) /\
  (s.(bw).(status_) = FINISHED -> s.(bw).(status_change_) <> Some STOPPED) /\
  (s.(bw).(status_change_) = Some STOPPED ->
     s.(cpc) = CStopWait \/ s.(bw).(status_) = STOPPED).

(** Concrete runs use result type [nat] and exception type [string]. *)
Definition s_new : Sys nat string := new_AsyncWorker nat string "".

Definition s_stop_wait : Sys nat string :=
  with_cpc CStopWait (with_bw (notify_all (set_status_change (Some STOPPED) s_new.(bw))) s_new).
Definition s_stopped_exiting : Sys nat string :=
  with_wpc (WExiting (Value 7)) (with_bw (worker_done s_stop_wait.(bw)) s_stop_wait).

(** the part of [operator<<] written before the percentage *)
Definition render_header (w : BaseWorker) : string :=
  "worker " ++ setw 20 w.(name_) ++ " - " ++ setw 10 (Status_to_string w.(status_)).


(** The second half of the shape of reachable states: which thread is where
    for each status, what [work()] leaves in the future, and what [result()]
    has delivered. *)
Definition sys_inv2 {R E : Type} (s : Sys R E) : Prop :=
  (s.(bw).(status_) = PAUSED <-> s.(wpc) = WYieldWait) /\
  (s.(bw).(status_) = FINISHED -> s.(bw).(progress_) = 1%float) /\
  (forall v, s.(wpc) = WExiting (Value v) -> terminal_status s.(bw) = true) /\
  (forall e, s.(wpc) = WExiting (Raised e) -> s.(bw).(status_) = RUNNING) /\
  (forall v, s.(future_state) = Some (Value v) -> terminal_status s.(bw) = true) /\
  (forall e, s.(future_state) = Some (Raised e) -> s.(bw).(status_) = RUNNING) /\
  (s.(future_state) = None -> s.(wpc) <> WDone) /\
  (s.(future_state) <> None -> s.(wpc) = WDone) /\
  (s.(future_valid) = true -> s.(obtained) = []) /\
  (s.(future_valid) = false -> exists o, s.(obtained) = [o] /\ s.(future_state) = Some o) /\
  (s.(cpc) = CResultWait -> s.(future_valid) = true).

(** the payload has left [work()] by an exception *)
Definition payload_threw {R E : Type} (s : Sys R E) : Prop :=
  (exists e, s.(wpc) = WExiting (Raised e)) \/ (exists e, s.(future_state) = Some (Raised e)).

(** [stop()] issued, then the payload throws. *)
Definition s_stop_then_throw : Sys nat string :=
  with_wpc (WExiting (Raised "boom")) s_stop_wait.

(** [stop()] issued, the payload returns [7] and [work()] has returned. *)
Definition s_stopped_done : Sys nat string :=
  mkSys s_stopped_exiting.(bw) WDone CStopWait true (Some (Value 7)) [].

(** A pause request acted on by [yield], then a restart request woken on. *)
Definition s_pause_wait : Sys nat string :=
  with_cpc CPauseWait (with_bw (set_status_change (Some PAUSED) s_new.(bw)) s_new).
Definition s_paused_in_yield : Sys nat string :=
  with_wpc WYieldWait
    (with_bw (notify_all (set_status PAUSED (set_status_change None (set_progress 0 s_pause_wait.(bw)))))
       s_pause_wait).
Definition s_paused : Sys nat string := with_cpc CIdle s_paused_in_yield.
Definition s_restart_wait : Sys nat string :=
  with_cpc CRestartWait (with_bw (notify_all (set_status_change (Some RUNNING) s_paused.(bw))) s_paused).
Definition s_restarted : Sys nat string :=
  with_wpc WPayload (with_bw (notify_all (set_status RUNNING s_restart_wait.(bw))) s_restart_wait).

(** [stop()] has returned and [result()] has delivered the value. *)
Definition s_result_taken : Sys nat string :=
  result_get (Value 7) (with_cpc CResultWait (with_cpc CIdle s_stopped_done)).

(** The payload returns [7] with no request pending. *)
Definition s_finished : Sys nat string :=
  with_wpc (WExiting (Value 7)) (with_bw (worker_done s_new.(bw)) s_new).

(** The Fibonacci numbers. *)
Fixpoint fib (n : nat) : nat :=
  match n with
  | O => 0
  | S O => 1
  | S (S k as m) => fib m + fib k
  end.

(** Strings without a space or tab, and non-empty runs of them. *)
Fixpoint no_delim (s : string) : bool :=
  match s with
  | EmptyString => true
  | String c s' => negb (is_delim c) && no_delim s'
  end.

Fixpoint all_delim (s : string) : bool :=
  match s with
  | EmptyString => true
  | String c s' => is_delim c && all_delim s'
  end.

(** [w0 ++ sep1 ++ w1 ++ sep2 ++ w2 ...] *)
Fixpoint join_runs (w : string) (rest : list (string * string)) : string :=
  match rest with
  | [] => w
  | (sep, w') :: rest' => w ++ sep ++ join_runs w' rest'
  end.

Fixpoint all_digits (s : string) : bool :=
  match s with
  | EmptyString => true
  | String c s' => match digit_value c with Some _ => all_digits s' | None => false end
  end.

Definition starts_with_digit (s : string) : bool :=
  match s with
  | String c _ => match digit_value c with Some _ => true | None => false end
  | EmptyString => false
  end.

(** the command word that selects each control operation *)
Definition control_word (op : control_op) : string :=
  match op with OpPause => "pause" | OpRestart => "restart" | OpStop => "stop" end.

Lemma Status_eqb_eq a b : Status_eqb a b = true <-> a = b.
Proof. destruct a, b; simpl; split; congruence. Qed.

Lemma clamp_one : clamp 1 0 1 = 1%float.
Proof. reflexivity. Qed.

Create HintDb worker_defs.
Hint Unfold yield yield_stop_check yield_wake yield_wait_done worker_done pause
  pause_wait_done restart restart_wait_done stop stop_wait_done terminal_status
  set_status set_status_change set_progress notify_all with_bw with_wpc with_cpc
  result result_get : worker_defs.

(** Case analysis on every [if]/[match] left after unfolding the model. *)
Ltac split_ifs :=
  repeat match goal with
  | H : context [match ?x with _ => _ end] |- _ => destruct x eqn:?
  | |- context [match ?x with _ => _ end] => destruct x eqn:?
  end.

Ltac run_model :=
  repeat autounfold with worker_defs in *; simpl in *; split_ifs; simpl in *;
  try discriminate.

(** Claim C2: [yield(p)] stores [clamp p 0 1] as the progress.  If the
    pending change is PAUSED it clears it, sets the status to PAUSED and
    notifies the condition variable, then waits; it stays blocked while the
    pending change is neither RUNNING nor STOPPED, and when it is one of
    them sets the status to RUNNING, notifies again and returns false
    exactly when the pending change is STOPPED.  Without a pending PAUSED it
    returns false exactly when the pending change is STOPPED. *)
Theorem yield_protocol (p : float) (w : BaseWorker) :
  (w.(status_change_) = Some PAUSED ->
     yield p w = YWaiting (mkBaseWorker w.(name_) PAUSED (clamp p 0 1) None
                                        (S w.(cv_notifies)))) /\
  (w.(status_change_) <> Some PAUSED ->
     yield p w = YReturned (negb (opt_Status_eqb w.(status_change_) STOPPED))
                           (set_progress p w)) /\
  (forall w2, w2.(status_change_) <> Some RUNNING -> w2.(status_change_) <> Some STOPPED ->
     yield_wake w2 = None) /\
  (forall w2, w2.(status_change_) = Some RUNNING \/ w2.(status_change_) = Some STOPPED ->
     yield_wake w2 =
       Some (YReturned (negb (opt_Status_eqb w2.(status_change_) STOPPED))
               (mkBaseWorker w2.(name_) RUNNING w2.(progress_) w2.(status_change_)
                  (S w2.(cv_notifies))))).
Proof.
  destruct w as [n st pr c k]; simpl.
  split; [| split; [| split]].
  - intros ->. reflexivity.
  - intros Hc. unfold yield, yield_stop_check, set_progress; simpl.
    destruct c as [[]|]; simpl; try reflexivity; congruence.
  - intros [n2 st2 pr2 c2 k2]; simpl. intros H1 H2.
    unfold yield_wake, yield_wait_done; simpl.
    destruct c2 as [[]|]; simpl; try reflexivity; congruence.
  - intros [n2 st2 pr2 c2 k2]; simpl. intros [-> | ->]; reflexivity.
Qed.

(** Claim C3: [worker_done] sets the status to STOPPED when the pending
    change is STOPPED and to FINISHED otherwise (in particular with no
    pending change or an unobserved pending PAUSED); a FINISHED status
    comes with progress exactly 1; the condition variable is notified. *)
Theorem worker_done_spec (w : BaseWorker) :
  (worker_done w).(status_) =
    (if opt_Status_eqb w.(status_change_) STOPPED then STOPPED else FINISHED) /\
  (w.(status_change_) = None -> (worker_done w).(status_) = FINISHED) /\
  (w.(status_change_) = Some PAUSED -> (worker_done w).(status_) = FINISHED) /\
  ((worker_done w).(status_) = FINISHED -> (worker_done w).(progress_) = 1%float) /\
  (worker_done w).(cv_notifies) = S w.(cv_notifies).
Proof.
  destruct w as [n st pr c k]; simpl.
  unfold worker_done, set_status, set_progress, notify_all; simpl.
  destruct c as [[]|]; simpl; repeat split; intros; try discriminate;
    try reflexivity; apply clamp_one.
Qed.

(** Claim C4: a control call whose precondition fails throws
    [std::logic_error] before it changes anything and before any wait:
    [pause] unless RUNNING, [restart] unless PAUSED, [stop] unless RUNNING
    or PAUSED; the call yields no new state (so status, pending change and
    progress are those of [w]).  In particular [pause] on a PAUSED worker
    throws. *)
Theorem invalid_transition_no_effect (w : BaseWorker) :
  (w.(status_) <> RUNNING ->
     pause w = inl (logic_error "Worker must be running to preform pause action")) /\
  (w.(status_) <> PAUSED ->
     restart w = inl (logic_error "Worker must be paused to preform restart action")) /\
  (w.(status_) <> RUNNING -> w.(status_) <> PAUSED ->
     stop w = inl (logic_error "Worker must be running or paused to preform stop action")) /\
  (w.(status_) = PAUSED ->
     pause w = inl (logic_error "Worker must be running to preform pause action")).
Proof.
  destruct w as [n st pr c k]; simpl.
  unfold pause, restart, stop; simpl.
  destruct st; simpl; repeat split; intros; try reflexivity; congruence.
Qed.

(** Claim C10: [yield(p)] stores [clamp p 0 1] before the pause wait and
    before the stop check, so the stored value is already published when
    that call returns false; with an empty pending-change slot, [yield(p)]
    returns true and changes only the progress (status, pending change and
    notifications untouched).  The wake-up half of [yield] does not touch
    the progress. *)
Theorem yield_publishes_progress (p : float) (w : BaseWorker) :
  (match yield p w with
   | YReturned _ w' | YWaiting w' => w'.(progress_) = clamp p 0 1
   end) /\
  (forall w', yield p w = YReturned false w' -> w'.(progress_) = clamp p 0 1) /\
  (forall w2 b w', yield_wake w2 = Some (YReturned b w') -> w'.(progress_) = w2.(progress_)) /\
  (w.(status_change_) = None ->
     yield p w = YReturned true
       (mkBaseWorker w.(name_) w.(status_) (clamp p 0 1) None w.(cv_notifies))).
Proof.
  destruct w as [n st pr c k]; simpl.
  split; [| split; [| split]].
  - unfold yield, yield_stop_check, set_progress; simpl.
    destruct c as [[]|]; reflexivity.
  - intros w'. unfold yield, yield_stop_check, set_progress; simpl.
    destruct c as [[]|]; simpl; intros H; inversion H; reflexivity.
  - intros [n2 st2 pr2 c2 k2] b w'. unfold yield_wake, yield_wait_done, yield_stop_check; simpl.
    destruct c2 as [[]|]; simpl; intros H; inversion H; reflexivity.
  - intros ->. reflexivity.
Qed.

Ltac inj_results :=
  repeat match goal with
  | H : YReturned _ _ = YReturned _ _ |- _ => inversion H; clear H; subst
  | H : YWaiting _ = YWaiting _ |- _ => inversion H; clear H; subst
  | H : Some _ = Some _ |- _ => inversion H; clear H; subst
  | H : inr _ = inr _ |- _ => inversion H; clear H; subst
  end.

(** Instantiate the implications of the context whose premise holds by
    computation, and drop those whose premise is refuted. *)
Ltac use_hyps :=
  repeat match goal with
  | H : ?x = ?x -> _ |- _ => specialize (H eq_refl)
  | H : forall _ : _, ?l = ?r -> _ |- _ =>
      let H' := fresh in pose proof (H _ eq_refl) as H'; clear H
  | H : ?a <> ?b -> _ |- _ => specialize (H ltac:(discriminate))
  | H : ?a = ?b -> _ |- _ => assert (a <> b) by discriminate; clear H
  | H : ?P -> _, H2 : ?P |- _ => specialize (H H2)
  end.

Section Reachable.
Context {R E : Type}.

Lemma sys_inv_new name : sys_inv (new_AsyncWorker R E name).
Proof. repeat split; simpl; congruence. Qed.

Lemma sys_inv_step (s s' : Sys R E) : sys_inv s -> step s s' -> sys_inv s'.
Proof.
  intros Hinv Hst.
  destruct s as [[n st p c k] wp cp fv fs ob].
  destruct Hinv as (H1 & H2 & H3 & H4 & H5); simpl in *.
  inversion Hst; subst; simpl in *; run_model;
    repeat match goal with
    | H : YReturned _ _ = YReturned _ _ |- _ => inversion H; clear H; subst
    | H : YWaiting _ = YWaiting _ |- _ => inversion H; clear H; subst
    | H : Some _ = Some _ |- _ => inversion H; clear H; subst
    | H : inr _ = inr _ |- _ => inversion H; clear H; subst
    end;
    simpl in *; repeat split; intros;
    destruct st; try destruct c as [[]|]; simpl in *;
    try discriminate; try congruence; intuition congruence.
Qed.

Lemma reachable_inv (s : Sys R E) : reachable s -> sys_inv s.
Proof.
  induction 1; [apply sys_inv_new | eapply sys_inv_step; eauto].
Qed.


Lemma step_status_legal (s s' : Sys R E) :
  sys_inv s -> step s s' ->
  s'.(bw).(status_) = s.(bw).(status_) \/
  legal_transition s.(bw).(status_) s'.(bw).(status_) = true.
Proof.
  intros Hinv Hst.
  destruct s as [[n st p c k] wp cp fv fs ob].
  destruct Hinv as (H1 & H2 & H3 & H4 & H5); simpl in *.
  inversion Hst; subst; simpl in *; subst; run_model; inj_results; simpl in *;
    try (left; reflexivity);
    destruct st; try destruct c as [[]|]; simpl in *;
    try discriminate; auto;
    first [ specialize (H1 eq_refl) | specialize (H2 eq_refl) ]; discriminate.
Qed.

Lemma step_terminal_fixed (s s' : Sys R E) :
  sys_inv s -> step s s' -> terminal_status s.(bw) = true ->
  s'.(bw).(status_) = s.(bw).(status_).
Proof.
  intros Hinv Hst Ht.
  destruct s as [[n st p c k] wp cp fv fs ob].
  destruct Hinv as (H1 & H2 & H3 & H4 & H5); simpl in *.
  unfold terminal_status in Ht; simpl in Ht.
  inversion Hst; subst; simpl in *; subst; run_model; inj_results; simpl in *;
    try reflexivity;
    destruct st; simpl in *; try discriminate;
    first [ specialize (H1 eq_refl) | specialize (H2 eq_refl) ]; discriminate.
Qed.

Lemma steps_terminal_fixed (s s'' : Sys R E) :
  sys_inv s -> terminal_status s.(bw) = true -> steps s s'' ->
  s''.(bw).(status_) = s.(bw).(status_).
Proof.
  intros Hinv Ht Hs. induction Hs as [s | s s1 s'' Hst Hs IH]; [reflexivity |].
  pose proof (step_terminal_fixed _ _ Hinv Hst Ht) as Heq.
  rewrite <- Heq. apply IH.
  - eapply sys_inv_step; eauto.
  - unfold terminal_status in *. rewrite Heq. exact Ht.
Qed.

(** Claim C1: a worker starts RUNNING; in every reachable state each step
    of either thread (pause, restart, stop, result, yield, its wake-up, the
    payload returning or throwing, worker_done) keeps the status or moves it
    along RUNNING->PAUSED, PAUSED->RUNNING, RUNNING->STOPPED,
    PAUSED->STOPPED or RUNNING->FINISHED; and once a reachable state has
    status STOPPED or FINISHED, no sequence of steps changes it again. *)
Theorem status_state_machine (name : string) :
  (new_AsyncWorker R E name).(bw).(status_) = RUNNING /\
  forall s : Sys R E, reachable s ->
    (forall s', step s s' ->
       s'.(bw).(status_) = s.(bw).(status_) \/
       legal_transition s.(bw).(status_) s'.(bw).(status_) = true) /\
    (terminal_status s.(bw) = true ->
       forall s'', steps s s'' -> s''.(bw).(status_) = s.(bw).(status_)).
Proof.
  split; [reflexivity |].
  intros s Hr. pose proof (reachable_inv s Hr) as Hinv. split.
  - intros s' Hst. exact (step_status_legal s s' Hinv Hst).
  - intros Ht s'' Hs. exact (steps_terminal_fixed s s'' Hinv Ht Hs).
Qed.

(** The two paths of [yield] as they touch the pending-change slot: with a
    pending PAUSED it clears the slot and reaches the wait; otherwise it
    returns at once and the slot is as it was. *)
Lemma yield_slot_cases (p : float) (w : BaseWorker) :
  (w.(status_change_) = Some PAUSED /\
     exists w', yield p w = YWaiting w' /\ w'.(status_change_) = None) \/
  (w.(status_change_) <> Some PAUSED /\
     exists b w', yield p w = YReturned b w' /\ w'.(status_change_) = w.(status_change_)).
Proof.
  destruct w as [n st pr c k].
  destruct c as [[]|]; cbn;
    first [ left; split; [reflexivity | eexists; split; reflexivity]
          | right; split; [discriminate | do 2 eexists; split; reflexivity] ].
Qed.

Lemma yield_wake_slot (w w' : BaseWorker) (b : bool) :
  yield_wake w = Some (YReturned b w') -> w'.(status_change_) = w.(status_change_).
Proof.
  destruct w as [n st pr c k]. unfold yield_wake, yield_wait_done, yield_stop_check; simpl.
  destruct c as [[]|]; simpl; intros H; inversion H; reflexivity.
Qed.

Lemma worker_done_slot (w : BaseWorker) :
  (worker_done w).(status_change_) = w.(status_change_).
Proof.
  destruct w as [n st pr c k]. unfold worker_done, set_status, set_progress, notify_all; simpl.
  destruct c as [[]|]; reflexivity.
Qed.

(** Claim C7 (amended): the worker empties the pending-change slot only
    when [yield] acts on a pending PAUSED.  A [yield] that returns at once
    (in particular [false] on a pending STOPPED) and the wake-up on a
    pending RUNNING or STOPPED leave the request in the slot, [worker_done]
    reads it without clearing it, and no step of either thread turns a
    held request into an empty slot except that [yield]; every reachable
    state with status STOPPED still holds STOPPED in the slot. *)
Theorem pending_change_clearing (p : float) :
  (forall w, w.(status_change_) = Some PAUSED ->
     exists w', yield p w = YWaiting w' /\ w'.(status_change_) = None) /\
  (forall w, w.(status_change_) <> Some PAUSED ->
     exists b w', yield p w = YReturned b w' /\ w'.(status_change_) = w.(status_change_)) /\
  (forall w b w', yield_wake w = Some (YReturned b w') ->
     w'.(status_change_) = w.(status_change_)) /\
  (forall w, (worker_done w).(status_change_) = w.(status_change_)) /\
  (forall s s' : Sys R E, step s s' ->
     s.(bw).(status_change_) <> None -> s'.(bw).(status_change_) = None ->
     s.(bw).(status_change_) = Some PAUSED /\ s.(wpc) = WPayload /\
     s'.(wpc) = WYieldWait) /\
  (forall s : Sys R E, reachable s -> s.(bw).(status_) = STOPPED ->
     s.(bw).(status_change_) = Some STOPPED).
Proof.
  split; [| split; [| split; [| split; [| split]]]].
  - intros w Hw. destruct (yield_slot_cases p w) as [[_ H] | [H _]]; [exact H | congruence].
  - intros w Hw. destruct (yield_slot_cases p w) as [[H _] | [_ H]]; [congruence | exact H].
  - intros w b w'. apply yield_wake_slot.
  - exact worker_done_slot.
  - intros s s' Hst Hne Hnone.
    inversion Hst; subst; cbn [bw wpc with_bw with_wpc with_cpc result_get] in *.
    + destruct (yield_slot_cases p0 (bw s)) as [[_ [w'' [Hy _]]] | [_ [b' [w'' [Hy Hc]]]]];
        rewrite Hy in H0; inversion H0; subst; congruence.
    + destruct (yield_slot_cases p0 (bw s)) as [[Hp [w'' [Hy _]]] | [_ [b' [w'' [Hy _]]]]];
        rewrite Hy in H0; inversion H0; subst.
      * repeat split; assumption.
    + rewrite (yield_wake_slot _ _ _ H0) in Hnone. congruence.
    + rewrite worker_done_slot in Hnone. congruence.
    + congruence.
    + congruence.
    + revert H0; unfold pause; destruct (negb _); intros H0; inversion H0; subst;
        discriminate.
    + congruence.
    + revert H0; unfold restart; destruct (negb _); intros H0; inversion H0; subst;
        discriminate.
    + congruence.
    + revert H0; unfold stop; destruct (_ && _); intros H0; inversion H0; subst;
        discriminate.
    + congruence.
    + revert H0; unfold result; destruct (negb _); intros H0; inversion H0; subst;
        simpl in *; congruence.
    + congruence.
  - intros s Hr. apply (reachable_inv s Hr).
Qed.

(** Claim C8 (amended): [stop()] on a RUNNING or PAUSED worker sets the
    pending change to STOPPED and notifies the condition variable; its wait
    ends only in a state whose status is terminal, where the worker thread
    is past the payload and [yield] (at most still leaving [work()]); from a
    terminal reachable state no step of either thread changes the
    [BaseWorker] fields any more. *)
Theorem stop_waits_for_terminal :
  (forall w, w.(status_) = RUNNING \/ w.(status_) = PAUSED ->
     stop w = inr (mkBaseWorker w.(name_) w.(status_) w.(progress_) (Some STOPPED)
                     (S w.(cv_notifies)))) /\
  (forall s s' : Sys R E, reachable s -> s.(cpc) = CStopWait -> step s s' ->
     s'.(cpc) <> CStopWait ->
     terminal_status s'.(bw) = true /\ s'.(wpc) <> WPayload /\ s'.(wpc) <> WYieldWait) /\
  (forall s s' : Sys R E, reachable s -> terminal_status s.(bw) = true -> step s s' ->
     s'.(bw) = s.(bw)).
Proof.
  split; [| split].
  - intros [n st pr c k]; simpl. intros [-> | ->]; reflexivity.
  - intros s s' Hr Hc Hst Hc'.
    pose proof (reachable_inv s Hr) as (H1 & H2 & _).
    destruct s as [[n st pr c k] wp cp fv fs ob]; simpl in *.
    inversion Hst; subst; simpl in *; try congruence.
    unfold stop_wait_done, terminal_status in *; simpl in *.
    split; [assumption |].
    split; intros Hw; [specialize (H1 Hw) | specialize (H2 Hw)]; subst;
      simpl in *; discriminate.
  - intros s s' Hr Ht Hst.
    pose proof (reachable_inv s Hr) as (H1 & H2 & _).
    destruct s as [[n st pr c k] wp cp fv fs ob]; simpl in *.
    unfold terminal_status in Ht; simpl in Ht.
    inversion Hst; subst; simpl in *; subst; run_model; inj_results; try reflexivity;
      try (destruct st; simpl in *; discriminate);
      first [ specialize (H1 eq_refl) | specialize (H2 eq_refl) ]; subst; discriminate.
Qed.

End Reachable.

(** ** Concrete runs *)


(** Claim C6 (code bug): [yield(NaN)] is a call the payload can make;
    [std::clamp(NaN, 0., 1.)] returns NaN (both comparisons are false), so a
    reachable state stores a progress that is not in [0,1]. *)
Theorem yield_nan_progress_escapes :
  exists s : Sys nat string, reachable s /\
    s.(bw).(progress_) = nan /\ PrimFloat.leb 0 s.(bw).(progress_) = false.
Proof.
  exists (with_bw (set_progress nan s_new.(bw)) s_new).
  split; [| split; reflexivity].
  eapply reach_step; [apply reach_new |].
  apply st_yield_return with (p := nan) (b := true); reflexivity.
Qed.

(** Claim C5 (code bug): a payload that throws leaves [work()] without
    [worker_done()]; the exception is stored in the future, and [result()]
    delivers it while the status is still RUNNING, i.e. before any terminal
    state; a second [result()] then throws [future_error(no_state)]. *)
Theorem result_returns_before_terminal_on_throw :
  exists s : Sys nat string, reachable s /\
    s.(obtained) = [Raised "boom"%string] /\ s.(cpc) = CIdle /\
    s.(bw).(status_) = RUNNING /\ terminal_status s.(bw) = false /\
    result s = inl future_error_no_state.
Proof.
  set (s1 := with_wpc (WExiting (Raised "boom"%string)) s_new).
  set (s2 := mkSys s1.(bw) WDone CIdle true (Some (Raised "boom"%string)) s1.(obtained)).
  set (s3 := with_cpc CResultWait s2).
  exists (result_get (Raised "boom"%string) s3).
  split; [| repeat split; reflexivity].
  apply reach_step with (s := s3); [| apply st_result_return; reflexivity].
  apply reach_step with (s := s2); [| apply st_result; reflexivity].
  apply reach_step with (s := s1); [| apply st_work_exit with (o := Raised "boom"%string); reflexivity].
  apply reach_step with (s := s_new); [apply reach_new | apply st_payload_throw; reflexivity].
Qed.


Lemma reachable_s_stopped_exiting : reachable s_stopped_exiting.
Proof.
  apply reach_step with (s := s_stop_wait); [| apply st_payload_return; reflexivity].
  apply reach_step with (s := s_new); [apply reach_new |].
  apply st_stop with (w' := notify_all (set_status_change (Some STOPPED) s_new.(bw)));
    reflexivity.
Qed.

(** Claim C7 (counterexample): after [stop()] and the payload returning, the
    state is terminal (STOPPED) and the slot still holds STOPPED; after
    [pause()], [yield], [restart()] and the wake-up, the worker has acted on
    the RUNNING request, which is still in the slot; and a task can reach
    FINISHED holding a RUNNING request (the payload returns after that
    wake-up) or a PAUSED one (the payload returns without calling [yield]
    after [pause()]). *)
Lemma pending_change_left_in_slot :
  (exists s : Sys nat string, reachable s /\ terminal_status s.(bw) = true /\
     s.(bw).(status_change_) = Some STOPPED) /\
  (exists s s' : Sys nat string, reachable s /\ s.(wpc) = WYieldWait /\
     s.(bw).(status_change_) = Some RUNNING /\ step s s' /\
     s'.(wpc) = WPayload /\ s'.(bw).(status_change_) = Some RUNNING) /\
  (exists s : Sys nat string, reachable s /\ s.(bw).(status_) = FINISHED /\
     s.(bw).(status_change_) = Some RUNNING) /\
  (exists s : Sys nat string, reachable s /\ s.(bw).(status_) = FINISHED /\
     s.(bw).(status_change_) = Some PAUSED).
Proof.
  set (w1 := set_status_change (Some PAUSED) s_new.(bw)).
  set (s1 := with_cpc CPauseWait (with_bw w1 s_new)).
  set (w2 := notify_all (set_status PAUSED (set_status_change None (set_progress 0 w1)))).
  set (s2 := with_wpc WYieldWait (with_bw w2 s1)).
  set (s3 := with_cpc CIdle s2).
  set (w4 := notify_all (set_status_change (Some RUNNING) w2)).
  set (s4 := with_cpc CRestartWait (with_bw w4 s3)).
  set (w5 := notify_all (set_status RUNNING w4)).
  set (s5 := with_wpc WPayload (with_bw w5 s4)).
  assert (R1 : reachable s1).
  { apply reach_step with (s := s_new); [apply reach_new | apply st_pause; reflexivity]. }
  assert (R4 : reachable s4).
  { apply reach_step with (s := s3); [| apply st_restart with (w' := w4); reflexivity].
    apply reach_step with (s := s2); [| apply st_pause_return; reflexivity].
    apply reach_step with (s := s1); [exact R1 | apply st_yield_block with (p := 0%float); reflexivity]. }
  assert (S45 : step s4 s5) by (apply st_yield_wake with (b := true); reflexivity).
  split; [| split; [| split]].
  - exists s_stopped_exiting. split; [exact reachable_s_stopped_exiting | split; reflexivity].
  - exists s4, s5.
    split; [exact R4 | split; [reflexivity | split; [reflexivity | split; [exact S45 | split; reflexivity]]]].
  - exists (with_wpc (WExiting (Value 7)) (with_bw (worker_done s5.(bw)) s5)).
    split; [| split; reflexivity].
    apply reach_step with (s := s5); [apply reach_step with (s := s4); assumption |].
    apply st_payload_return; reflexivity.
  - exists (with_wpc (WExiting (Value 7)) (with_bw (worker_done s1.(bw)) s1)).
    split; [| split; reflexivity].
    apply reach_step with (s := s1); [exact R1 |].
    apply st_payload_return; reflexivity.
Qed.

(** Claim C8 (counterexample): [stop()] returns (its wait predicate holds
    once [worker_done] has run) while the worker thread is still inside
    [work()]; its next step writes the payload's value into the future's
    shared state. *)
Lemma stop_returns_before_thread_exit :
  exists s0 s1 s2 : Sys nat string,
    reachable s0 /\ s0.(cpc) = CStopWait /\ step s0 s1 /\ s1.(cpc) = CIdle /\
    s1.(wpc) = WExiting (Value 7) /\ step s1 s2 /\
    s2.(future_state) <> s1.(future_state).
Proof.
  exists s_stopped_exiting, (with_cpc CIdle s_stopped_exiting),
    (mkSys s_stopped_exiting.(bw) WDone CIdle true (Some (Value 7)) []).
  split; [exact reachable_s_stopped_exiting |].
  split; [reflexivity |].
  split; [apply st_stop_return; reflexivity |].
  split; [reflexivity | split; [reflexivity | split]].
  - exact (@st_work_exit nat string (Value 7) (with_cpc CIdle s_stopped_exiting) eq_refl).
  - simpl. discriminate.
Qed.
(** ** Rendering *)

Lemma string_app_assoc (a b c : string) : (a ++ b) ++ c = a ++ (b ++ c).
Proof. induction a as [|ch a IH]; simpl; [reflexivity | rewrite IH; reflexivity]. Qed.

Lemma string_app_empty_r (a : string) : a ++ "" = a.
Proof. induction a as [|ch a IH]; simpl; [reflexivity | rewrite IH; reflexivity]. Qed.


(** Claim C9 (counterexample): a freshly started worker (RUNNING, progress
    0) is printed without any percentage, and the line starts with
    ["worker "] and the padded name. *)
Lemma render_fresh_worker_without_percentage :
  render (new_AsyncWorker nat string "w").(bw) = "worker                    w -    running"%string /\
  render (new_AsyncWorker nat string "w").(bw) =
    render_header (new_AsyncWorker nat string "w").(bw).
Proof. split; reflexivity. Qed.

(** Claim C9 (amended): [operator<<] of worker.hpp prints ["worker "], the
    name right-aligned in 20 columns, [" - "] and the status name
    right-aligned in 10 columns, and then [" ("], [std::round(progress*100)]
    right-aligned in 3 columns and ["% done)"] exactly when the status is
    RUNNING or PAUSED and the progress is greater than 0; in a terminal
    status, or with progress 0, nothing follows the status.  The operator
    of worker.h prints ["worker <name> - <status>"] without padding and
    appends [" (<rounded percent>% done)"] exactly when the status is
    RUNNING or PAUSED. *)
Theorem render_format (w : BaseWorker) :
  (terminal_status w = true -> render w = render_header w) /\
  (PrimFloat.ltb 0 w.(progress_) = false -> render w = render_header w) /\
  (terminal_status w = false -> PrimFloat.ltb 0 w.(progress_) = true ->
     render w = render_header w ++ " (" ++
                setw 3 (ostream_rounded (w.(progress_) * 100)%float) ++ "% done)") /\
  render_legacy w =
    "worker " ++ w.(name_) ++ " - " ++ Status_to_string w.(status_) ++
    (if terminal_status w then ""
     else " (" ++ ostream_rounded (w.(progress_) * 100)%float ++ "% done)") /\
  render (mkBaseWorker "fib" RUNNING 0.5 None 0) = "worker                  fib -    running ( 50% done)"%string.
Proof.
  destruct w as [n st pr c k].
  unfold render, render_legacy, render_header, terminal_status; simpl.
  rewrite ?string_app_assoc.
  split; [| split; [| split; [| split]]].
  - destruct st; simpl; intros H; try discriminate; rewrite ?string_app_empty_r; reflexivity.
  - intros ->. rewrite andb_false_r. rewrite ?string_app_empty_r. reflexivity.
  - intros Ht ->. destruct st; simpl in *; try discriminate; reflexivity.
  - destruct st; reflexivity.
  - reflexivity.
Qed.

(** ** Further properties of the worker system *)

Section Extras.
Context {R E : Type}.

Lemma sys_inv2_new name : sys_inv2 (new_AsyncWorker R E name).
Proof.
  unfold sys_inv2; simpl. repeat split; intros; congruence.
Qed.

Lemma sys_inv2_step (s s' : Sys R E) : sys_inv s -> sys_inv2 s -> step s s' -> sys_inv2 s'.
Proof.
  intros Hinv H2 Hst.
  destruct s as [[n st p c k] wp cp fv fs ob].
  destruct Hinv as (H1 & Hy & H3 & H4 & H5).
  destruct H2 as ([P1a P1b] & P2 & P3 & P4 & P5 & P6 & P7 & P8 & P9 & P10 & P11).
  simpl in *. destruct fv; destruct fs as [o0|];
  inversion Hst; subst; simpl in *; subst; run_model; inj_results; simpl in *;
    unfold sys_inv2, terminal_status in *; simpl in *;
    repeat split; intros; inj_results; subst; simpl in *; use_hyps;
    try discriminate; try congruence; try assumption; try reflexivity;
    try solve [eauto];
    try (destruct P10 as (? & ? & ?)); subst; try discriminate;
    try solve [eexists; split; reflexivity].
Qed.

Lemma reachable_inv2 (s : Sys R E) : reachable s -> sys_inv2 s.
Proof.
  induction 1 as [name | s s' Hr IH Hst]; [apply sys_inv2_new |].
  exact (sys_inv2_step s s' (reachable_inv s Hr) IH Hst).
Qed.

Lemma reachable_steps (s s' : Sys R E) : reachable s -> steps s s' -> reachable s'.
Proof.
  intros Hr Hs. induction Hs as [s | s s1 s'' Hst Hs IH]; [exact Hr |].
  apply IH. exact (reach_step _ _ _ _ Hr Hst).
Qed.

(** A terminal status is only reached through [worker_done], after the
    payload returned a value. *)
Lemma terminal_payload_returned (s : Sys R E) :
  reachable s -> terminal_status s.(bw) = true ->
  exists v, s.(wpc) = WExiting (Value v) \/
            (s.(wpc) = WDone /\ s.(future_state) = Some (Value v)).
Proof.
  intros Hr Ht.
  destruct (reachable_inv s Hr) as (H1 & Hy & _).
  destruct (reachable_inv2 s Hr) as (_ & _ & _ & P4 & _ & P6 & P7 & _).
  unfold terminal_status in Ht.
  destruct s.(wpc) as [ | | [v | e] | ] eqn:Hw.
  - rewrite (H1 eq_refl) in Ht. discriminate.
  - rewrite (Hy eq_refl) in Ht. discriminate.
  - exists v. left. reflexivity.
  - rewrite (P4 e eq_refl) in Ht. discriminate.
  - destruct s.(future_state) as [[v | e] |] eqn:Hf.
    + exists v. right. split; reflexivity.
    + rewrite (P6 e eq_refl) in Ht. discriminate.
    + exfalso. exact (P7 eq_refl eq_refl).
Qed.

Lemma step_keeps_stop_request (s s' : Sys R E) :
  sys_inv s -> step s s' -> s.(bw).(status_change_) = Some STOPPED ->
  s'.(bw).(status_change_) = Some STOPPED.
Proof.
  intros Hinv Hst Hc.
  destruct s as [[n st p c k] wp cp fv fs ob].
  destruct Hinv as (H1 & Hy & H3 & H4 & H5); simpl in *; subst c.
  destruct (H5 eq_refl) as [Hcp | Hstp]; subst;
    inversion Hst; subst; simpl in *; subst; run_model; inj_results; simpl in *;
    try reflexivity; try discriminate.
Qed.

Lemma step_keeps_payload_threw (s s' : Sys R E) :
  sys_inv2 s -> step s s' -> payload_threw s -> payload_threw s'.
Proof.
  intros H2 Hst Ht.
  destruct s as [[n st p c k] wp cp fv fs ob].
  destruct H2 as (_ & _ & _ & _ & _ & _ & _ & P8 & _).
  unfold payload_threw in *; simpl in *.
  destruct Ht as [[e He] | [e He]]; subst.
  - inversion Hst; subst; simpl in *; try discriminate; run_model;
      inj_results; simpl in *; try congruence; eauto.
    injection H as <-. right. eauto.
  - assert (wp = WDone) by (apply P8; discriminate). subst.
    inversion Hst; subst; simpl in *; try discriminate; run_model;
      inj_results; simpl in *; eauto.
Qed.

(** Extra: [pause()] returns only in a state where the worker thread is
    blocked in the wait of [yield] with status PAUSED, or where the status
    is terminal and the payload has returned a value (the thread is leaving
    or has left [work()]). *)
Theorem pause_returns_paused_or_done (s s' : Sys R E) :
  reachable s -> s.(cpc) = CPauseWait -> step s s' -> s'.(cpc) <> CPauseWait ->
  s'.(cpc) = CIdle /\
  ((s'.(wpc) = WYieldWait /\ s'.(bw).(status_) = PAUSED) \/
   (terminal_status s'.(bw) = true /\
    exists v, s'.(wpc) = WExiting (Value v) \/
              (s'.(wpc) = WDone /\ s'.(future_state) = Some (Value v)))).
Proof.
  intros Hr Hc Hst Hc'.
  assert (Hr' : reachable s') by exact (reach_step _ _ _ _ Hr Hst).
  destruct (reachable_inv2 s' Hr') as ([P1a _] & _).
  inversion Hst; subst; simpl in *; try congruence.
  split; [reflexivity |].
  unfold pause_wait_done in *. apply orb_true_iff in H0.
  destruct H0 as [Hp | Ht].
  - left. apply Status_eqb_eq in Hp. split; [apply P1a; exact Hp | exact Hp].
  - right. split; [exact Ht |]. exact (terminal_payload_returned _ Hr' Ht).
Qed.

(** Extra: [restart()] returns only in a state where the worker thread has
    left the wait of [yield]: the status is RUNNING, or it is terminal and
    the payload has returned a value. *)
Theorem restart_returns_after_wake (s s' : Sys R E) :
  reachable s -> s.(cpc) = CRestartWait -> step s s' -> s'.(cpc) <> CRestartWait ->
  s'.(cpc) = CIdle /\ s'.(wpc) <> WYieldWait /\
  (s'.(bw).(status_) = RUNNING \/
   (terminal_status s'.(bw) = true /\
    exists v, s'.(wpc) = WExiting (Value v) \/
              (s'.(wpc) = WDone /\ s'.(future_state) = Some (Value v)))).
Proof.
  intros Hr Hc Hst Hc'.
  assert (Hr' : reachable s') by exact (reach_step _ _ _ _ Hr Hst).
  destruct (reachable_inv s' Hr') as (_ & Hy & _).
  inversion Hst; subst; simpl in *; try congruence.
  split; [reflexivity |].
  unfold restart_wait_done in *. apply orb_true_iff in H0.
  destruct H0 as [Hp | Ht].
  - apply Status_eqb_eq in Hp.
    split; [intros Hw; rewrite (Hy Hw) in Hp; discriminate | left; exact Hp].
  - split.
    + intros Hw. unfold terminal_status in Ht. rewrite (Hy Hw) in Ht. discriminate.
    + right. split; [exact Ht |]. exact (terminal_payload_returned _ Hr' Ht).
Qed.

(** Extra: once [stop()] has put STOPPED in the pending-change slot, no
    later step of either thread removes it, and from then on every [yield]
    returns false at once (storing its progress) and a [yield] sleeping in
    its wait wakes and returns false. *)
Theorem stop_request_persists (s s' : Sys R E) :
  reachable s -> s.(bw).(status_change_) = Some STOPPED -> steps s s' ->
  s'.(bw).(status_change_) = Some STOPPED /\
  (forall p, yield p s'.(bw) = YReturned false (set_progress p s'.(bw))) /\
  exists w', yield_wake s'.(bw) = Some (YReturned false w').
Proof.
  intros Hr Hc Hs.
  assert (Hc' : s'.(bw).(status_change_) = Some STOPPED).
  { induction Hs as [s | s s1 s'' Hst Hs IH]; [exact Hc |].
    apply IH.
    - exact (reach_step _ _ _ _ Hr Hst).
    - exact (step_keeps_stop_request s s1 (reachable_inv s Hr) Hst Hc). }
  destruct s' as [[n st p c k] wp cp fv fs ob]; simpl in *; subst c.
  split; [reflexivity | split].
  - intros p0. reflexivity.
  - eexists. reflexivity.
Qed.

(** Extra: [result()] delivers at most one outcome, and it is the one
    [work()] left in the future; once it has been delivered, every further
    [result()] throws [future_error(no_state)]. *)
Theorem result_at_most_once (s : Sys R E) :
  reachable s ->
  length s.(obtained) <= 1 /\
  (forall o, In o s.(obtained) -> s.(future_state) = Some o) /\
  (s.(obtained) <> [] -> result s = inl future_error_no_state).
Proof.
  intros Hr.
  destruct (reachable_inv2 s Hr) as (_ & _ & _ & _ & _ & _ & _ & _ & P9 & P10 & _).
  unfold result.
  destruct s.(future_valid) eqn:Hv.
  - rewrite (P9 eq_refl). simpl.
    split; [lia | split; [intros o [] | congruence]].
  - destruct (P10 eq_refl) as (o & Ho & Hf). rewrite Ho. simpl.
    split; [lia | split; [| reflexivity]].
    intros o' [<- | []]. exact Hf.
Qed.

(** Extra: a value (as opposed to an exception) is delivered by [result()]
    only when the status is terminal. *)
Theorem result_value_only_when_terminal (s : Sys R E) (v : R) :
  reachable s -> In (Value v) s.(obtained) -> terminal_status s.(bw) = true.
Proof.
  intros Hr Hin.
  destruct (reachable_inv2 s Hr) as (_ & _ & _ & _ & P5 & _ & _ & _ & P9 & P10 & _).
  destruct s.(future_valid) eqn:Hv.
  - rewrite (P9 eq_refl) in Hin. destruct Hin.
  - destruct (P10 eq_refl) as (o & Ho & Hf). rewrite Ho in Hin.
    destruct Hin as [-> | []]. exact (P5 v Hf).
Qed.

(** Extra: in every reachable state a FINISHED worker reports progress
    exactly 1 (no later [yield] can overwrite it). *)
Theorem finished_progress_is_one (s : Sys R E) :
  reachable s -> s.(bw).(status_) = FINISHED -> s.(bw).(progress_) = 1%float.
Proof.
  intros Hr. exact (proj1 (proj2 (reachable_inv2 s Hr))).
Qed.

(** Extra: once [work()] has returned, destroying the worker calls
    [std::terminate] exactly when the payload threw: a returned value
    leaves a terminal status, an exception leaves the status RUNNING. *)
Theorem destructor_terminates_iff_payload_threw (s : Sys R E) :
  reachable s -> s.(wpc) = WDone ->
  (BaseWorker_destructor_terminates s.(bw) = true <->
   exists e, s.(future_state) = Some (Raised e)).
Proof.
  intros Hr Hw.
  destruct (reachable_inv2 s Hr) as (_ & _ & _ & _ & P5 & P6 & P7 & _).
  unfold BaseWorker_destructor_terminates.
  destruct s.(future_state) as [[v | e] |] eqn:Hf.
  - rewrite (P5 v eq_refl). split; [discriminate | intros [e He]; discriminate].
  - unfold terminal_status. rewrite (P6 e eq_refl). simpl.
    split; [intros _; exists e; reflexivity | reflexivity].
  - exfalso. exact (P7 eq_refl Hw).
Qed.

(** Extra: after the payload throws, the status stays RUNNING in every
    later state, so a [pause()] or [stop()] that is waiting never returns
    (and neither does [wait()], whose predicate is the terminal status). *)
Theorem thrown_payload_blocks_waits (s s' : Sys R E) :
  reachable s -> payload_threw s -> steps s s' ->
  s'.(bw).(status_) = RUNNING /\ terminal_status s'.(bw) = false /\
  (s.(cpc) = CPauseWait -> s'.(cpc) = CPauseWait) /\
  (s.(cpc) = CStopWait -> s'.(cpc) = CStopWait).
Proof.
  intros Hr Ht Hs.
  induction Hs as [s | s s1 s'' Hst Hs IH].
  - destruct (reachable_inv2 s Hr) as (_ & _ & _ & P4 & _ & P6 & _).
    destruct Ht as [[e He] | [e He]];
      [pose proof (P4 e He) as Hrun | pose proof (P6 e He) as Hrun];
      unfold terminal_status; rewrite Hrun; auto.
  - assert (Hrun : s.(bw).(status_) = RUNNING).
    { destruct (reachable_inv2 s Hr) as (_ & _ & _ & P4 & _ & P6 & _).
      destruct Ht as [[e He] | [e He]]; [exact (P4 e He) | exact (P6 e He)]. }
    assert (Hc : (s.(cpc) = CPauseWait -> s1.(cpc) = CPauseWait) /\
                 (s.(cpc) = CStopWait -> s1.(cpc) = CStopWait)).
    { destruct s as [[n st p c k] wp cp fv fs ob]; simpl in *; subst st.
      split; intros Hcp; subst cp;
        inversion Hst; subst; simpl in *; try discriminate; reflexivity. }
    destruct (IH (reach_step _ _ _ _ Hr Hst)
                 (step_keeps_payload_threw s s1 (reachable_inv2 s Hr) Hst Ht))
      as (H1 & H2 & H3 & H4).
    repeat split; auto; intros Hcp; auto.
    + apply H3, Hc, Hcp.
    + apply H4, Hc, Hcp.
Qed.


End Extras.

(** ** Example payloads *)

Lemma u64_add_mod (a b : Z) : u64 (u64 a + u64 b) = u64 (a + b).
Proof. unfold u64. rewrite <- Z.add_mod by lia. reflexivity. Qed.

Lemma fibonacci_slow_SS lf answers k i :
  fibonacci_slow lf answers (S (S k)) i =
  if negb (answers i) then (u64 (-1), S i)
  else if lf then
    let (a, i1) := fibonacci_slow lf answers (S k) (S i) in
    let (b, i2) := fibonacci_slow lf answers k i1 in
    (u64 (a + b), i2)
  else
    let (b, i1) := fibonacci_slow lf answers k (S i) in
    let (a, i2) := fibonacci_slow lf answers (S k) i1 in
    (u64 (a + b), i2).
Proof. reflexivity. Qed.

Lemma fib_pos (n : nat) : 1 <= fib (S n).
Proof.
  induction n as [n IH] using lt_wf_ind.
  destruct n as [| [| k]]; simpl; [lia | lia |].
  specialize (IH (S k) ltac:(lia)). simpl in IH. lia.
Qed.

(** Extra: when every [yield] answers true, [fibonacci_slow(yield, n)]
    returns the n-th Fibonacci number modulo 2^64 and calls [yield]
    exactly [fib (n + 1) - 1] times, whichever operand of [+] the compiler
    evaluates first. *)
Theorem fibonacci_slow_all_continue (left_first : bool) (answers : nat -> bool) (n i : nat) :
  (forall j, answers j = true) ->
  fibonacci_slow left_first answers n i = (u64 (Z.of_nat (fib n)), i + (fib (S n) - 1)).
Proof.
  intros Hall. revert i.
  induction n as [n IH] using lt_wf_ind. intros i.
  destruct n as [| [| k]].
  - simpl. unfold u64. rewrite Z.mod_small by lia. f_equal; lia.
  - simpl. unfold u64. rewrite Z.mod_small by lia. f_equal; lia.
  - rewrite fibonacci_slow_SS, Hall. simpl negb. cbv iota.
    pose proof (fib_pos k). pose proof (fib_pos (S k)).
    destruct left_first.
    + rewrite (IH (S k) ltac:(lia) (S i)), (IH k ltac:(lia)).
      rewrite u64_add_mod. f_equal.
      * f_equal. change (fib (S (S k))) with (fib (S k) + fib k). lia.
      * change (fib (S (S (S k)))) with (fib (S (S k)) + fib (S k)).
        change (fib (S (S k))) with (fib (S k) + fib k). lia.
    + rewrite (IH k ltac:(lia) (S i)), (IH (S k) ltac:(lia)).
      rewrite Z.add_comm, u64_add_mod. f_equal.
      * f_equal. change (fib (S (S k))) with (fib (S k) + fib k). lia.
      * change (fib (S (S (S k)))) with (fib (S (S k)) + fib (S k)).
        change (fib (S (S k))) with (fib (S k) + fib k). lia.
Qed.

Lemma fibonacci_slow_after_refusal lf answers k n i :
  (forall j, k <= j -> answers j = false) -> k <= i ->
  snd (fibonacci_slow lf answers n i) <= S i.
Proof.
  intros Hk Hi. destruct n as [| [| n']]; [simpl; lia | simpl; lia |].
  rewrite fibonacci_slow_SS, (Hk i Hi). simpl. lia.
Qed.

Lemma fibonacci_slow_calls_bound lf answers k n i :
  (forall j, k <= j -> answers j = false) ->
  snd (fibonacci_slow lf answers n i) <= Nat.max i k + n.
Proof.
  intros Hk. revert i.
  induction n as [n IH] using lt_wf_ind. intros i.
  destruct n as [| [| m]]; [simpl; lia | simpl; lia |].
  rewrite fibonacci_slow_SS.
  destruct (answers i) eqn:Ha; simpl negb; cbv iota; [| simpl; lia].
  assert (Hik : i < k).
  { destruct (Nat.lt_ge_cases i k) as [H | H]; [exact H |].
    rewrite (Hk i H) in Ha. discriminate. }
  destruct lf.
  - destruct (fibonacci_slow true answers (S m) (S i)) as [a i1] eqn:E1.
    destruct (fibonacci_slow true answers m i1) as [b i2] eqn:E2. simpl.
    pose proof (IH (S m) ltac:(lia) (S i)) as B1. rewrite E1 in B1. cbn [snd] in B1.
    destruct (Nat.lt_ge_cases i1 k) as [Hl | Hl].
    + pose proof (IH m ltac:(lia) i1) as B2. rewrite E2 in B2. cbn [snd] in B2. lia.
    + pose proof (fibonacci_slow_after_refusal true answers k m i1 Hk Hl) as B2.
      rewrite E2 in B2. cbn [snd] in B2. lia.
  - destruct (fibonacci_slow false answers m (S i)) as [b i1] eqn:E1.
    destruct (fibonacci_slow false answers (S m) i1) as [a i2] eqn:E2. simpl.
    pose proof (IH m ltac:(lia) (S i)) as B1. rewrite E1 in B1. cbn [snd] in B1.
    destruct (Nat.lt_ge_cases i1 k) as [Hl | Hl].
    + pose proof (IH (S m) ltac:(lia) i1) as B2. rewrite E2 in B2. cbn [snd] in B2. lia.
    + pose proof (fibonacci_slow_after_refusal false answers k (S m) i1 Hk Hl) as B2.
      rewrite E2 in B2. cbn [snd] in B2. lia.
Qed.

(** For [n >= 0] the [int] model agrees with the model on [nat] once the
    fuel exceeds [n]. *)
Lemma fibonacci_slow_int_nat lf answers (n : nat) (fuel i : nat) :
  n < fuel ->
  fibonacci_slow_int lf answers fuel (Z.of_nat n) i = Some (fibonacci_slow lf answers n i).
Proof.
  revert fuel i. induction n as [n IH] using lt_wf_ind. intros fuel i Hf.
  destruct fuel as [| f]; [lia |].
  destruct n as [| [| m]]; [reflexivity | reflexivity |].
  cbn [fibonacci_slow_int]. rewrite fibonacci_slow_SS.
  replace (Z.of_nat (S (S m)) =? 0)%Z with false by (symmetry; apply Z.eqb_neq; lia).
  replace (Z.of_nat (S (S m)) =? 1)%Z with false by (symmetry; apply Z.eqb_neq; lia).
  destruct (answers i); cbn [negb]; [| reflexivity].
  replace (Z.of_nat (S (S m)) - 2 <? INT_MIN)%Z with false
    by (symmetry; apply Z.ltb_ge; unfold INT_MIN; lia).
  replace (Z.of_nat (S (S m)) - 1)%Z with (Z.of_nat (S m)) by lia.
  replace (Z.of_nat (S (S m)) - 2)%Z with (Z.of_nat m) by lia.
  destruct lf.
  - rewrite (IH (S m) ltac:(lia) f (S i) ltac:(lia)).
    destruct (fibonacci_slow true answers (S m) (S i)) as [a i1].
    rewrite (IH m ltac:(lia) f i1 ltac:(lia)).
    destruct (fibonacci_slow true answers m i1) as [b i2]. reflexivity.
  - rewrite (IH m ltac:(lia) f (S i) ltac:(lia)).
    destruct (fibonacci_slow false answers m (S i)) as [b i1].
    rewrite (IH (S m) ltac:(lia) f i1 ltac:(lia)).
    destruct (fibonacci_slow false answers (S m) i1) as [a i2]. reflexivity.
Qed.

(** For [n < 0] every call reaches [yield]; the calls before index [k]
    recurse and the later ones return, so from index [i] the subtree ends
    by index [max (i + 1) (2k - i + 1)], with no overflow as long as [n]
    stays [2 (k - i)] above [INT_MIN]. *)
Lemma fibonacci_slow_int_negative lf answers (k : nat) (fuel : nat) (n : Z) (i : nat) :
  (forall j, k <= j -> answers j = false) ->
  (n < 0)%Z -> (INT_MIN + 2 * Z.of_nat (k - i) <= n)%Z -> k - i < fuel ->
  exists r i', fibonacci_slow_int lf answers fuel n i = Some (r, i') /\
    S i <= i' /\ i' <= Nat.max (S i) (2 * k - i + 1).
Proof.
  intros Hk. revert n i. induction fuel as [| f IH]; intros n i Hn Hmin Hf; [lia |].
  cbn [fibonacci_slow_int].
  replace (n =? 0)%Z with false by (symmetry; apply Z.eqb_neq; lia).
  replace (n =? 1)%Z with false by (symmetry; apply Z.eqb_neq; lia).
  destruct (answers i) eqn:Ha; cbn [negb]; [| do 2 eexists; split; [reflexivity | lia]].
  assert (Hik : i < k).
  { destruct (Nat.lt_ge_cases i k) as [H | H]; [exact H |].
    rewrite (Hk i H) in Ha. discriminate. }
  replace (n - 2 <? INT_MIN)%Z with false by (symmetry; apply Z.ltb_ge; lia).
  destruct lf.
  - destruct (IH (n - 1)%Z (S i) ltac:(lia) ltac:(lia) ltac:(lia)) as (a & i1 & E1 & Hi1 & B1).
    rewrite E1.
    destruct (IH (n - 2)%Z i1 ltac:(lia) ltac:(lia) ltac:(lia)) as (b & i2 & E2 & Hi2 & B2).
    rewrite E2. do 2 eexists; split; [reflexivity | lia].
  - destruct (IH (n - 2)%Z (S i) ltac:(lia) ltac:(lia) ltac:(lia)) as (b & i1 & E1 & Hi1 & B1).
    rewrite E1.
    destruct (IH (n - 1)%Z i1 ltac:(lia) ltac:(lia) ltac:(lia)) as (a & i2 & E2 & Hi2 & B2).
    rewrite E2. do 2 eexists; split; [reflexivity | lia].
Qed.

(** Extra: [fibonacci_slow(yield, n)] for any [int n]: if every [yield]
    call from the k-th on (counting from 0) answers false, the call
    returns, and it makes at most [k + n] calls to [yield] when [n >= 0]
    and at most [2k + 1] when [n < 0] (there the base cases are never
    reached and every call reaches [yield]).  For a negative [n] the
    precondition keeps [n - 2] inside [int] in every recursive call. *)
Theorem fibonacci_slow_stop_bound (left_first : bool) (answers : nat -> bool) (k : nat) (n : Z) :
  (forall j, k <= j -> answers j = false) ->
  (INT_MIN <= n <= INT_MAX)%Z -> ((n < 0)%Z -> (INT_MIN + 2 * Z.of_nat k <= n)%Z) ->
  exists r, fibonacci_slow_int left_first answers (k + Z.to_nat n + 1) n 0 = Some r /\
    snd r <= (if (0 <=? n)%Z then k + Z.to_nat n else 2 * k + 1).
Proof.
  intros Hk Hr Hneg.
  destruct (Z.leb_spec 0 n) as [Hn | Hn].
  - exists (fibonacci_slow left_first answers (Z.to_nat n) 0).
    rewrite <- (Z2Nat.id n Hn) at 2.
    split; [apply fibonacci_slow_int_nat; lia |].
    pose proof (fibonacci_slow_calls_bound left_first answers k (Z.to_nat n) 0 Hk). lia.
  - destruct (fibonacci_slow_int_negative left_first answers k (k + Z.to_nat n + 1) n 0 Hk
                ltac:(lia) ltac:(rewrite Nat.sub_0_r; lia) ltac:(lia)) as (r & i' & E & _ & B).
    exists (r, i'). split; [exact E | cbn [snd]; lia].
Qed.

Lemma min_element_from_spec (l : list Z) (best : Z) (best_i i : nat) :
  (min_element_from best best_i i l = best_i /\ forall y, In y l -> (best <= y)%Z) \/
  (exists j, min_element_from best best_i i l = i + j /\ j < length l /\
     (nth j l 0 <= best)%Z /\ forall y, In y l -> (nth j l 0 <= y)%Z).
Proof.
  revert best best_i i.
  induction l as [| x t IH]; intros best best_i i; simpl.
  - left. split; [reflexivity | intros y []].
  - destruct (x <? best)%Z eqn:Hx.
    + apply Z.ltb_lt in Hx. right.
      destruct (IH x i (S i)) as [[Hr Hall] | (j & Hr & Hj & Hle & Hall)].
      * exists 0. rewrite Hr. split; [lia | split; [lia | split; [simpl; lia |]]].
        intros y [<- | Hy]; [lia | exact (Hall y Hy)].
      * exists (S j). rewrite Hr. split; [lia | split; [lia | split; [simpl; lia |]]].
        simpl. intros y [<- | Hy]; [exact Hle | exact (Hall y Hy)].
    + apply Z.ltb_ge in Hx.
      destruct (IH best best_i (S i)) as [[Hr Hall] | (j & Hr & Hj & Hle & Hall)].
      * left. split; [exact Hr |]. intros y [<- | Hy]; [lia | exact (Hall y Hy)].
      * right. exists (S j). rewrite Hr. split; [lia | split; [lia | split; [simpl; lia |]]].
        simpl. intros y [<- | Hy]; [lia | exact (Hall y Hy)].
Qed.

Lemma min_element_spec (l : list Z) :
  l <> [] -> min_element l < length l /\ forall y, In y l -> (nth (min_element l) l 0 <= y)%Z.
Proof.
  destruct l as [| x t]; [congruence |]. intros _. unfold min_element.
  destruct (min_element_from_spec t x 0 1) as [[Hr Hall] | (j & Hr & Hj & Hle & Hall)];
    rewrite Hr; simpl.
  - split; [lia |]. intros y [<- | Hy]; [lia | exact (Hall y Hy)].
  - split; [lia |]. intros y [<- | Hy]; [exact Hle | exact (Hall y Hy)].
Qed.

Lemma set_nth_perm (x : Z) (t : list Z) (j : nat) :
  j < length t -> Permutation (x :: t) (nth j t 0%Z :: set_nth t j x).
Proof.
  revert j. induction t as [| y t IH]; intros j Hj; simpl in Hj; [lia |].
  destruct j as [| j]; simpl.
  - apply perm_swap.
  - eapply perm_trans; [apply perm_swap |].
    eapply perm_trans; [apply perm_skip, (IH j ltac:(lia)) |].
    apply perm_swap.
Qed.

Lemma iter_swap_head_spec (l : list Z) (j : nat) :
  j < length l ->
  exists rest, iter_swap_head l j = nth j l 0%Z :: rest /\ Permutation l (nth j l 0%Z :: rest).
Proof.
  destruct l as [| x t]; simpl; intros Hj; [lia |].
  destruct j as [| j].
  - exists t. split; reflexivity.
  - exists (set_nth t j x). split; [reflexivity |]. apply set_nth_perm. lia.
Qed.

Lemma in_firstn_in {A} (n : nat) (l : list A) (x : A) : In x (firstn n l) -> In x l.
Proof.
  intros H. rewrite <- (firstn_skipn n l). apply in_or_app. left. exact H.
Qed.

Lemma in_skipn_in {A} (n : nat) (l : list A) (x : A) : In x (skipn n l) -> In x l.
Proof.
  intros H. rewrite <- (firstn_skipn n l). apply in_or_app. right. exact H.
Qed.

Lemma selection_sort_loop_spec (answers : nat -> bool) (distance : float)
    (fuel n_sorted : nat) (suffix : list Z) :
  length suffix = fuel ->
  let r := selection_sort_loop answers distance fuel n_sorted suffix in
  Permutation suffix (fst r) /\
  Sorted Z.le (firstn (length (snd r)) (fst r)) /\
  (forall x y, In x (firstn (length (snd r)) (fst r)) ->
     In y (skipn (length (snd r)) (fst r)) -> (x <= y)%Z) /\
  ((forall j, n_sorted <= j -> answers j = true) -> length (snd r) = fuel).
Proof.
  revert n_sorted suffix.
  induction fuel as [| f IH]; intros n_sorted suffix Hlen; simpl.
  - destruct suffix; [| discriminate]. simpl.
    split; [apply perm_nil | split; [constructor | split; [intros x y [] | reflexivity]]].
  - assert (Hne : suffix <> []) by (intros ->; discriminate).
    destruct (min_element_spec suffix Hne) as [Hj Hmin].
    destruct (iter_swap_head_spec suffix (min_element suffix) Hj) as (rest & Hsw & Hperm).
    rewrite Hsw.
    set (m := nth (min_element suffix) suffix 0%Z) in *.
    assert (Hm : forall y, In y rest -> (m <= y)%Z).
    { intros y Hy. apply Hmin. apply Permutation_in with (l := m :: rest);
        [symmetry; exact Hperm | right; exact Hy]. }
    assert (Hlr : length rest = f).
    { apply Permutation_length in Hperm. simpl in Hperm. lia. }
    destruct (answers n_sorted) eqn:Ha; simpl.
    + destruct (selection_sort_loop answers distance f (S n_sorted) rest) as [r' args'] eqn:Er.
      destruct (IH (S n_sorted) rest Hlr) as (P & Hso & Hle & Hall).
      rewrite Er in P, Hso, Hle, Hall. simpl in P, Hso, Hle, Hall. simpl.
      split; [| split; [| split]].
      * eapply perm_trans; [exact Hperm | apply perm_skip, P].
      * constructor; [exact Hso |].
        destruct (firstn (length args') r') as [| h t] eqn:Ef; constructor.
        apply Hm. apply Permutation_in with (l := r'); [symmetry; exact P |].
        apply (in_firstn_in (length args')). rewrite Ef. left. reflexivity.
      * intros x y [<- | Hx] Hy.
        -- apply Hm. apply Permutation_in with (l := r'); [symmetry; exact P |].
           exact (in_skipn_in _ _ _ Hy).
        -- exact (Hle x y Hx Hy).
      * intros Ht. f_equal. apply Hall. intros j Hj2. apply Ht. lia.
    + split; [exact Hperm | split; [repeat constructor | split]].
      * intros x y [<- | []] Hy. exact (Hm y Hy).
      * intros Ht. rewrite (Ht n_sorted (le_n _)) in Ha. discriminate.
Qed.

(** Extra: when every [yield] answers true, [selection_sort] leaves the
    vector sorted (non-decreasing) and a permutation of the input, and
    calls [yield] once per element. *)
Theorem selection_sort_all_continue (answers : nat -> bool) (v : list Z) :
  (forall j, answers j = true) ->
  Sorted Z.le (fst (selection_sort answers v)) /\
  Permutation v (fst (selection_sort answers v)) /\
  length (snd (selection_sort answers v)) = length v.
Proof.
  intros Ht. unfold selection_sort.
  destruct (selection_sort_loop_spec answers (double_of_nat (length v)) (length v) 0 v eq_refl)
    as (P & Hso & _ & Hall).
  assert (Hl : length (snd (selection_sort_loop answers (double_of_nat (length v)) (length v) 0 v))
               = length v) by (apply Hall; intros j _; apply Ht).
  rewrite Hl in Hso.
  rewrite firstn_all2 in Hso by (apply Permutation_length in P; lia).
  split; [exact Hso | split; [exact P | exact Hl]].
Qed.

(** Extra: whatever [yield] answers, [selection_sort] only permutes the
    vector, and when it stops after [m] calls to [yield] (m = 1 when the
    first call answers false), the first [m] elements are sorted and no
    larger than any element after them. *)
Theorem selection_sort_stopped_prefix (answers : nat -> bool) (v : list Z) :
  let '(r, args) := selection_sort answers v in
  Permutation v r /\
  Sorted Z.le (firstn (length args) r) /\
  (forall x y, In x (firstn (length args) r) -> In y (skipn (length args) r) -> (x <= y)%Z).
Proof.
  unfold selection_sort.
  destruct (selection_sort_loop_spec answers (double_of_nat (length v)) (length v) 0 v eq_refl)
    as (P & Hso & Hle & _).
  destruct (selection_sort_loop answers (double_of_nat (length v)) (length v) 0 v) as [r args].
  simpl in *. split; [exact P | split; [exact Hso | exact Hle]].
Qed.

Lemma dummy_worker_loop_length (answers : nat -> bool) (loop_n : Z) (fuel i k : nat) :
  i <= k -> (forall j, i <= j < k -> answers j = true) -> answers k = false ->
  length (dummy_worker_loop answers loop_n fuel i) = Nat.min fuel (S k - i).
Proof.
  revert i. induction fuel as [| f IH]; intros i Hik Ht Hf; cbn [dummy_worker_loop];
    [simpl; lia |].
  destruct (answers i) eqn:Ha; cbn [negb length].
  - assert (i <> k) by (intros ->; congruence).
    rewrite (IH (S i)); [lia | lia | | exact Hf].
    intros j Hj. apply Ht. lia.
  - assert (i = k).
    { destruct (Nat.lt_ge_cases i k) as [H | H]; [| lia].
      rewrite (Ht i ltac:(lia)) in Ha. discriminate. }
    subst. lia.
Qed.

Lemma dummy_worker_loop_length_all (answers : nat -> bool) (loop_n : Z) (fuel i : nat) :
  (forall j, answers j = true) -> length (dummy_worker_loop answers loop_n fuel i) = fuel.
Proof.
  intros Ht. revert i. induction fuel as [| f IH]; intros i; simpl; [reflexivity |].
  rewrite Ht. simpl. rewrite IH. reflexivity.
Qed.

(** Extra: [dummy_worker(yield, loop_n, sleep_ms)] calls [yield] once per
    iteration and leaves the loop right after the first call that answers
    false: with the first refusal at call k it makes [min loop_n (k + 1)]
    calls, and [loop_n] calls (none for a negative [loop_n]) when every
    call answers true. *)
Theorem dummy_worker_yield_calls (answers : nat -> bool) (loop_n : Z) (k : nat) :
  ((forall j, j < k -> answers j = true) -> answers k = false ->
     length (dummy_worker answers loop_n) = Nat.min (Z.to_nat loop_n) (S k)) /\
  ((forall j, answers j = true) -> length (dummy_worker answers loop_n) = Z.to_nat loop_n).
Proof.
  unfold dummy_worker. split.
  - intros Ht Hf. rewrite (dummy_worker_loop_length answers loop_n _ 0 k); [lia | lia | | exact Hf].
    intros j Hj. apply Ht. lia.
  - intros Ht. apply dummy_worker_loop_length_all. exact Ht.
Qed.

Lemma file_writer_loop_lines (answers : nat -> bool) (n_lines : Z) (fuel i calls k : nat) :
  i <= 100 * calls -> 100 * calls <= i + 99 -> calls <= k ->
  (forall j, calls <= j < k -> answers j = true) -> answers k = false ->
  fst (file_writer_loop answers n_lines fuel i calls) = Nat.min (i + fuel) (100 * k + 1).
Proof.
  revert i calls. induction fuel as [| f IH]; intros i calls H1 H2 Hk Ht Hf;
    cbn [file_writer_loop fst]; [lia |].
  pose proof (Nat.div_mod_eq i 100) as Hdm. pose proof (Nat.mod_upper_bound i 100 ltac:(lia)) as Hub.
  destruct (Nat.eqb (i mod 100) 0) eqn:Hm.
  - apply Nat.eqb_eq in Hm.
    assert (Hi : i = 100 * calls) by lia.
    destruct (answers calls) eqn:Ha; cbn [negb fst].
    + assert (calls <> k) by (intros ->; congruence).
      destruct (file_writer_loop answers n_lines f (S i) (S calls)) as [n args] eqn:E.
      cbn [fst]. pose proof (IH (S i) (S calls)) as IH'. rewrite E in IH'. cbn [fst] in IH'.
      rewrite IH'; [lia | lia | lia | lia | | exact Hf].
      intros j Hj. apply Ht. lia.
    + assert (calls = k).
      { destruct (Nat.lt_ge_cases calls k) as [H | H]; [| lia].
        rewrite (Ht calls ltac:(lia)) in Ha. discriminate. }
      subst. lia.
  - apply Nat.eqb_neq in Hm.
    rewrite (IH (S i) calls); [lia | lia | lia | lia | exact Ht | exact Hf].
Qed.

Lemma file_writer_loop_lines_all (answers : nat -> bool) (n_lines : Z) (fuel i calls : nat) :
  (forall j, answers j = true) ->
  fst (file_writer_loop answers n_lines fuel i calls) = i + fuel.
Proof.
  intros Ht. revert i calls. induction fuel as [| f IH]; intros i calls;
    cbn [file_writer_loop fst]; [lia |].
  destruct (Nat.eqb (i mod 100) 0).
  - rewrite Ht. cbn [negb].
    destruct (file_writer_loop answers n_lines f (S i) (S calls)) as [n args] eqn:E.
    cbn [fst]. pose proof (IH (S i) (S calls)) as IH'. rewrite E in IH'. cbn [fst] in IH'. lia.
  - rewrite IH. lia.
Qed.

(** Extra: [file_writer(yield, n_lines, line_length)] calls [yield] only
    after lines 0, 100, 200, ..., so when the first refusal comes at call k
    it has written [min n_lines (100 k + 1)] lines, and all [n_lines]
    lines (none for a negative [n_lines]) when every call answers true. *)
Theorem file_writer_lines_written (answers : nat -> bool) (n_lines : Z) (k : nat) :
  ((forall j, j < k -> answers j = true) -> answers k = false ->
     fst (file_writer answers n_lines) = Nat.min (Z.to_nat n_lines) (100 * k + 1)) /\
  ((forall j, answers j = true) -> fst (file_writer answers n_lines) = Z.to_nat n_lines).
Proof.
  unfold file_writer. split.
  - intros Ht Hf. rewrite (file_writer_loop_lines answers n_lines _ 0 0 k); [lia | lia | lia | lia | | exact Hf].
    intros j Hj. apply Ht. lia.
  - intros Ht. rewrite file_writer_loop_lines_all by exact Ht. lia.
Qed.

(** ** The command line of the workers manager *)

Lemma split_aux_word (w r cur : string) :
  no_delim w = true -> split_aux (w ++ r) cur false = split_aux r (cur ++ w) false.
Proof.
  revert cur. induction w as [| c w IH]; intros cur Hw; simpl.
  - rewrite string_app_empty_r. reflexivity.
  - simpl in Hw. apply andb_true_iff in Hw as [Hc Hw].
    apply negb_true_iff in Hc. rewrite Hc.
    rewrite (IH _ Hw), string_app_assoc. reflexivity.
Qed.

Lemma split_aux_word_after_run (w r cur : string) :
  w <> EmptyString -> no_delim w = true ->
  split_aux (w ++ r) cur true = split_aux r (cur ++ w) false.
Proof.
  destruct w as [| c w]; intros Hne Hw; [congruence |].
  simpl in *. apply andb_true_iff in Hw as [Hc Hw].
  apply negb_true_iff in Hc. rewrite Hc.
  rewrite (split_aux_word w r _ Hw), string_app_assoc. reflexivity.
Qed.

Lemma split_aux_in_run (sep r : string) :
  all_delim sep = true -> split_aux (sep ++ r) EmptyString true = split_aux r EmptyString true.
Proof.
  induction sep as [| c sep IH]; intros Hs; simpl; [reflexivity |].
  simpl in Hs. apply andb_true_iff in Hs as [Hc Hs]. rewrite Hc. exact (IH Hs).
Qed.

Lemma split_aux_run (sep r cur : string) :
  sep <> EmptyString -> all_delim sep = true ->
  split_aux (sep ++ r) cur false = cur :: split_aux r EmptyString true.
Proof.
  destruct sep as [| c sep]; intros Hne Hs; [congruence |].
  simpl in *. apply andb_true_iff in Hs as [Hc Hs]. rewrite Hc.
  rewrite (split_aux_in_run sep r Hs). reflexivity.
Qed.

Definition run_then_word (p : string * string) : Prop :=
  fst p <> EmptyString /\ all_delim (fst p) = true /\
  snd p <> EmptyString /\ no_delim (snd p) = true.

Lemma split_aux_join_runs (rest : list (string * string)) (w : string) (b : bool) :
  no_delim w = true -> (b = true -> w <> EmptyString) -> Forall run_then_word rest ->
  split_aux (join_runs w rest) EmptyString b = w :: map snd rest.
Proof.
  revert w b. induction rest as [| [sep w'] rest IH]; intros w b Hw Hb Hall; simpl.
  - rewrite <- (string_app_empty_r w) at 1.
    destruct b.
    + rewrite (split_aux_word_after_run w "" "" (Hb eq_refl) Hw). reflexivity.
    + rewrite (split_aux_word w "" "" Hw). reflexivity.
  - inversion Hall as [| ? ? (Hsep & Hsd & Hw'ne & Hw') Hall']; subst. simpl in *.
    assert (Hstep : split_aux (w ++ sep ++ join_runs w' rest) "" b =
                    split_aux (sep ++ join_runs w' rest) ("" ++ w) false).
    { destruct b.
      - exact (split_aux_word_after_run w _ "" (Hb eq_refl) Hw).
      - exact (split_aux_word w _ "" Hw). }
    rewrite Hstep, (split_aux_run sep _ _ Hsep Hsd).
    rewrite (IH w' true Hw' (fun _ => Hw'ne) Hall'). reflexivity.
Qed.

(** Extra: [boost::split] with [is_any_of(" \t")] and [token_compress_on]
    recovers the words of a line whose words (none containing a space or
    tab, all but the first non-empty) are separated by non-empty runs of
    spaces and tabs: ["pause \t 2"] is read as [["pause"; "2"]]. *)
Theorem split_command_join_runs (w : string) (rest : list (string * string)) :
  no_delim w = true -> Forall run_then_word rest ->
  split_command (join_runs w rest) = w :: map snd rest.
Proof.
  intros Hw Hall. unfold split_command.
  apply split_aux_join_runs; [exact Hw | discriminate | exact Hall].
Qed.

(** Extra: an empty line, or a line that starts with a space or a tab,
    is ignored: its first token is empty and [execute_command] returns
    without output. *)
Theorem cli_leading_blank_ignored (n_workers : nat) (c : ascii) (rest : string) :
  is_delim c = true ->
  execute_command n_workers (split_command EmptyString) = CliNothing /\
  execute_command n_workers (split_command (String c rest)) = CliNothing.
Proof.
  intros Hc. unfold split_command. simpl. rewrite Hc. split; reflexivity.
Qed.

Lemma split_aux_trailing_run (s cur : string) (b : bool) (c : ascii) :
  is_delim c = true -> (b = true -> cur = EmptyString) ->
  exists l, split_aux (s ++ String c EmptyString) cur b = (l ++ [EmptyString])%list.
Proof.
  intros Hc. revert cur b.
  induction s as [| d s IH]; intros cur b Hb; simpl.
  - rewrite Hc. destruct b.
    + rewrite (Hb eq_refl). exists []. reflexivity.
    + exists [cur]. reflexivity.
  - destruct (is_delim d).
    + destruct b.
      * exact (IH cur true Hb).
      * destruct (IH EmptyString true (fun _ => eq_refl)) as [l Hl].
        exists (cur :: l). rewrite Hl. reflexivity.
    + apply IH. discriminate.
Qed.

(** Extra: a line that ends with a space or a tab never pauses, restarts
    or stops a worker and never prints the status table: its last token is
    empty, so the line is ignored or answered with an error message. *)
Theorem cli_trailing_blank_no_action (n_workers : nat) (s : string) (c : ascii) :
  is_delim c = true ->
  execute_command n_workers (split_command (s ++ String c EmptyString)) = CliNothing \/
  exists msg, execute_command n_workers (split_command (s ++ String c EmptyString)) = CliPrint msg.
Proof.
  intros Hc. unfold split_command.
  destruct (split_aux_trailing_run s EmptyString false c Hc ltac:(discriminate)) as [l Hl].
  rewrite Hl.
  destruct l as [| t0 [| t1 l]]; simpl.
  - left. reflexivity.
  - destruct t0; [left; reflexivity | right; eexists; reflexivity].
  - destruct t0; [left; reflexivity |].
    right. destruct (l ++ [EmptyString])%list eqn:E; [destruct l; discriminate |].
    eexists; reflexivity.
Qed.

(** Extra: [execute_command] calls [pause], [restart] or [stop] only for a
    line of two tokens whose first is the matching command word and whose
    second parses ([std::stoi]) to an id in [1, n_workers], and it calls it
    on [workers_[id - 1]]. *)
Theorem cli_control_only_valid_id (n_workers : nat) (tokens : list string)
    (op : control_op) (index : nat) :
  execute_command n_workers tokens = CliControl op index ->
  index < n_workers /\
  exists arg, tokens = [control_word op; arg] /\ stoi arg = StoiOk (Z.of_nat (S index)).
Proof.
  unfold execute_command.
  destruct tokens as [| t0 [| t1 [| t2 l]]]; try discriminate; destruct t0 as [| c0 t0];
    try discriminate.
  - destruct (String.eqb _ "status"); discriminate.
  - destruct (stoi t1) as [id | |] eqn:Hs; try discriminate.
    destruct (id <=? 0)%Z eqn:H0; [discriminate |].
    destruct (Nat.leb n_workers (Z.to_nat (id - 1))) eqn:H1; [discriminate |].
    apply Z.leb_gt in H0. apply Nat.leb_gt in H1.
    assert (Hid : Z.of_nat (S (Z.to_nat (id - 1))) = id) by lia.
    destruct (String.eqb (String c0 t0) "pause") eqn:Ep;
      [| destruct (String.eqb (String c0 t0) "restart") eqn:Er;
         [| destruct (String.eqb (String c0 t0) "stop") eqn:Est]];
      intros H; inversion H; subst; clear H;
      (split; [exact H1 | exists t1; split; [| rewrite Hid; exact Hs]]);
      simpl; f_equal; apply String.eqb_eq; assumption.
Qed.

Lemma read_digits_app (s rest : string) (acc : Z) (len : nat) :
  all_digits s = true -> starts_with_digit rest = false ->
  read_digits (s ++ rest) acc len = read_digits s acc len.
Proof.
  revert acc len. induction s as [| c s IH]; intros acc len Hs Hr; simpl.
  - destruct rest as [| d rest]; [reflexivity |]. simpl in *.
    destruct (digit_value d); [discriminate | reflexivity].
  - simpl in Hs. destruct (digit_value c); [| discriminate]. exact (IH _ _ Hs Hr).
Qed.

(** Extra: the worker id is read from the digits at the start of the
    second token; whatever follows them is ignored, so ["pause 2abc"] acts
    exactly like ["pause 2"]. *)
Theorem cli_id_trailing_text_ignored (n_workers : nat) (w s rest : string) :
  s <> EmptyString -> all_digits s = true -> starts_with_digit rest = false ->
  execute_command n_workers [w; s ++ rest] = execute_command n_workers [w; s].
Proof.
  intros Hne Hs Hr.
  assert (Hst : stoi (s ++ rest) = stoi s).
  { destruct s as [| c s']; [congruence |].
    unfold stoi. simpl in Hs.
    destruct (digit_value c) as [dv |] eqn:Hd; [| discriminate].
    assert (Hsp : is_space c = false).
    { unfold is_space, digit_value in *.
      destruct (Nat.leb 48 (nat_of_ascii c) && Nat.leb (nat_of_ascii c) 57) eqn:E; [| discriminate].
      apply andb_true_iff in E as [E1 E2]. apply Nat.leb_le in E1, E2.
      apply orb_false_iff. split; [apply Nat.eqb_neq; lia |].
      apply andb_false_iff. right. apply Nat.leb_gt. lia. }
    assert (Hsg : Ascii.eqb c "-"%char = false /\ Ascii.eqb c "+"%char = false).
    { unfold digit_value in Hd.
      split; apply Ascii.eqb_neq; intros ->; simpl in Hd; discriminate. }
    destruct Hsg as [Hm Hp].
    simpl. rewrite Hsp, Hm, Hp.
    change (String c (s' ++ rest)) with (String c s' ++ rest).
    rewrite read_digits_app; [reflexivity | | exact Hr]. simpl. rewrite Hd. exact Hs. }
  destruct w as [| c w]; [reflexivity |].
  simpl. rewrite Hst. reflexivity.
Qed.

Lemma execute_command_control_lt (n_workers : nat) (tokens : list string)
    (op : control_op) (index : nat) :
  execute_command n_workers tokens = CliControl op index -> index < n_workers.
Proof.
  unfold execute_command.
  destruct tokens as [| t0 [| t1 [| t2 l]]]; try discriminate; destruct t0 as [| c0 t0];
    try discriminate.
  - destruct (String.eqb _ "status"); discriminate.
  - destruct (stoi t1) as [id | |]; try discriminate.
    destruct (id <=? 0)%Z; [discriminate |].
    destruct (Nat.leb n_workers (Z.to_nat (id - 1))) eqn:H1; [discriminate |].
    apply Nat.leb_gt in H1.
    repeat match goal with |- context [if ?b then _ else _] => destruct b end;
      intros H; inversion H; subst; exact H1.
Qed.

Lemma list_update_length {A : Type} (l : list A) (i : nat) (x : A) :
  length (list_update l i x) = length l.
Proof.
  revert i. induction l as [| y t IH]; intros [| i]; simpl; auto.
Qed.

Lemma nth_error_list_update_ne {A : Type} (l : list A) (i j : nat) (x : A) :
  j <> i -> nth_error (list_update l i x) j = nth_error l j.
Proof.
  revert i j. induction l as [| y t IH]; intros [| i] [| j] Hne; simpl; auto; congruence.
Qed.

Lemma nth_error_list_update_eq {A : Type} (l : list A) (i : nat) (x : A) :
  i < length l -> nth_error (list_update l i x) i = Some x.
Proof.
  revert i. induction l as [| y t IH]; intros [| i] Hi; simpl in *; try lia; auto.
  apply IH. lia.
Qed.

Lemma run_control_fields (op : control_op) (w : BaseWorker) :
  let w' := snd (run_control op w) in
  w'.(name_) = w.(name_) /\ w'.(status_) = w.(status_) /\ w'.(progress_) = w.(progress_).
Proof.
  destruct w as [n st pr c k].
  destruct op, st; simpl; repeat split.
Qed.

(** Extra: a command line never adds or removes a worker, changes at most
    one worker ([workers_[id - 1]]), and never changes any worker's name,
    status or progress itself: a control command only files its request
    in the pending-change slot (and notifies), or leaves the worker as it
    was when the call throws. *)
Theorem execute_line_only_requests (workers : list BaseWorker) (command : string) :
  let '(_, workers') := execute_line workers command in
  length workers' = length workers /\
  exists i, (forall j, j <> i -> nth_error workers' j = nth_error workers j) /\
    forall w w', nth_error workers i = Some w -> nth_error workers' i = Some w' ->
      w'.(name_) = w.(name_) /\ w'.(status_) = w.(status_) /\ w'.(progress_) = w.(progress_).
Proof.
  unfold execute_line.
  assert (Hsame : length workers = length workers /\
    exists i, (forall j, j <> i -> nth_error workers j = nth_error workers j) /\
      forall w w', nth_error workers i = Some w -> nth_error workers i = Some w' ->
        w'.(name_) = w.(name_) /\ w'.(status_) = w.(status_) /\ w'.(progress_) = w.(progress_)).
  { split; [reflexivity |]. exists 0. split; [reflexivity |].
    intros w w' H1 H2. rewrite H1 in H2. inversion H2. auto. }
  destruct (execute_command (length workers) (split_command command)) as [| | msg | op i] eqn:E;
    try exact Hsame.
  pose proof (execute_command_control_lt _ _ _ _ E) as Hi.
  destruct (nth_error workers i) as [w |] eqn:Hw; [| exact Hsame].
  pose proof (run_control_fields op w) as Hf.
  destruct (run_control op w) as [msg w'] eqn:Er. simpl in Hf.
  split; [apply list_update_length |].
  exists i. split.
  - intros j Hj. apply nth_error_list_update_ne. exact Hj.
  - intros w1 w2 H1 H2. rewrite Hw in H1. inversion H1; subst w1.
    rewrite nth_error_list_update_eq in H2 by exact Hi. inversion H2; subst w2. exact Hf.
Qed.

(** ** Concrete runs for the properties above *)

Lemma reachable_s_restarted : reachable s_restarted.
Proof.
  apply reach_step with (s := s_restart_wait); [| apply st_yield_wake with (b := true); reflexivity].
  apply reach_step with (s := s_paused);
    [| apply st_restart with (w' := s_restart_wait.(bw)); reflexivity].
  apply reach_step with (s := s_paused_in_yield); [| apply st_pause_return; reflexivity].
  apply reach_step with (s := s_pause_wait); [| apply st_yield_block with (p := 0%float); reflexivity].
  apply reach_step with (s := s_new); [apply reach_new | apply st_pause; reflexivity].
Qed.

Lemma reachable_s_paused_in_yield : reachable s_paused_in_yield.
Proof.
  apply reach_step with (s := s_pause_wait); [| apply st_yield_block with (p := 0%float); reflexivity].
  apply reach_step with (s := s_new); [apply reach_new | apply st_pause; reflexivity].
Qed.

Lemma reachable_s_stop_wait : reachable s_stop_wait.
Proof.
  apply reach_step with (s := s_new); [apply reach_new |].
  apply st_stop with (w' := s_stop_wait.(bw)); reflexivity.
Qed.

Lemma reachable_s_stop_then_throw : reachable s_stop_then_throw.
Proof.
  apply reach_step with (s := s_stop_wait); [exact reachable_s_stop_wait |].
  apply st_payload_throw; reflexivity.
Qed.

Lemma reachable_s_stopped_done : reachable s_stopped_done.
Proof.
  apply reach_step with (s := s_stopped_exiting); [exact reachable_s_stopped_exiting |].
  exact (@st_work_exit nat string (Value 7) s_stopped_exiting eq_refl).
Qed.

Lemma reachable_s_result_taken : reachable s_result_taken.
Proof.
  apply reach_step with (s := with_cpc CResultWait (with_cpc CIdle s_stopped_done));
    [| apply st_result_return; reflexivity].
  apply reach_step with (s := with_cpc CIdle s_stopped_done); [| apply st_result; reflexivity].
  apply reach_step with (s := s_stopped_done); [exact reachable_s_stopped_done |].
  apply st_stop_return; reflexivity.
Qed.

Lemma reachable_s_finished : reachable s_finished.
Proof.
  apply reach_step with (s := s_new); [apply reach_new | apply st_payload_return; reflexivity].
Qed.

Lemma pause_returns_paused_or_done_witness :
  reachable s_paused_in_yield /\ s_paused_in_yield.(cpc) = CPauseWait /\
  step s_paused_in_yield s_paused /\ s_paused.(cpc) <> CPauseWait /\
  s_paused.(cpc) = CIdle /\
  ((s_paused.(wpc) = WYieldWait /\ s_paused.(bw).(status_) = PAUSED) \/
   (terminal_status s_paused.(bw) = true /\
    exists v, s_paused.(wpc) = WExiting (Value v) \/
              (s_paused.(wpc) = WDone /\ s_paused.(future_state) = Some (Value v)))).
Proof.
  assert (Hst : step s_paused_in_yield s_paused) by (apply st_pause_return; reflexivity).
  assert (Hc' : s_paused.(cpc) <> CPauseWait) by discriminate.
  split; [exact reachable_s_paused_in_yield |].
  split; [reflexivity |]. split; [exact Hst |]. split; [exact Hc' |].
  exact (pause_returns_paused_or_done s_paused_in_yield s_paused
           reachable_s_paused_in_yield eq_refl Hst Hc').
Defined.

Lemma restart_returns_after_wake_witness :
  reachable s_restarted /\ s_restarted.(cpc) = CRestartWait /\
  step s_restarted (with_cpc CIdle s_restarted) /\
  (with_cpc CIdle s_restarted).(cpc) <> CRestartWait /\
  (with_cpc CIdle s_restarted).(cpc) = CIdle /\
  (with_cpc CIdle s_restarted).(wpc) <> WYieldWait /\
  ((with_cpc CIdle s_restarted).(bw).(status_) = RUNNING \/
   (terminal_status (with_cpc CIdle s_restarted).(bw) = true /\
    exists v, (with_cpc CIdle s_restarted).(wpc) = WExiting (Value v) \/
              ((with_cpc CIdle s_restarted).(wpc) = WDone /\
               (with_cpc CIdle s_restarted).(future_state) = Some (Value v)))).
Proof.
  assert (Hst : step s_restarted (with_cpc CIdle s_restarted))
    by (apply st_restart_return; reflexivity).
  assert (Hc' : (with_cpc CIdle s_restarted).(cpc) <> CRestartWait) by discriminate.
  split; [exact reachable_s_restarted |].
  split; [reflexivity |]. split; [exact Hst |]. split; [exact Hc' |].
  exact (restart_returns_after_wake s_restarted _ reachable_s_restarted eq_refl Hst Hc').
Defined.

Lemma stop_request_persists_witness :
  reachable s_stop_wait /\ s_stop_wait.(bw).(status_change_) = Some STOPPED /\
  steps s_stop_wait s_stopped_exiting /\
  s_stopped_exiting.(bw).(status_change_) = Some STOPPED /\
  (forall p, yield p s_stopped_exiting.(bw) =
             YReturned false (set_progress p s_stopped_exiting.(bw))) /\
  exists w', yield_wake s_stopped_exiting.(bw) = Some (YReturned false w').
Proof.
  assert (Hs : steps s_stop_wait s_stopped_exiting).
  { apply rt1n_trans with (y := s_stopped_exiting); [| apply rt1n_refl].
    apply st_payload_return; reflexivity. }
  split; [exact reachable_s_stop_wait |].
  split; [reflexivity |]. split; [exact Hs |].
  exact (stop_request_persists s_stop_wait s_stopped_exiting reachable_s_stop_wait eq_refl Hs).
Defined.

Lemma result_at_most_once_witness :
  reachable s_result_taken /\
  length s_result_taken.(obtained) <= 1 /\
  (forall o, In o s_result_taken.(obtained) -> s_result_taken.(future_state) = Some o) /\
  (s_result_taken.(obtained) <> [] -> result s_result_taken = inl future_error_no_state).
Proof.
  split; [exact reachable_s_result_taken |].
  exact (result_at_most_once s_result_taken reachable_s_result_taken).
Defined.

Lemma result_value_only_when_terminal_witness :
  reachable s_result_taken /\ In (Value 7) s_result_taken.(obtained) /\
  terminal_status s_result_taken.(bw) = true.
Proof.
  assert (Hin : In (Value 7) s_result_taken.(obtained)) by (left; reflexivity).
  split; [exact reachable_s_result_taken | split; [exact Hin |]].
  exact (result_value_only_when_terminal s_result_taken 7 reachable_s_result_taken Hin).
Defined.

Lemma finished_progress_is_one_witness :
  reachable s_finished /\ s_finished.(bw).(status_) = FINISHED /\
  s_finished.(bw).(progress_) = 1%float.
Proof.
  split; [exact reachable_s_finished | split; [reflexivity |]].
  exact (finished_progress_is_one s_finished reachable_s_finished eq_refl).
Defined.

Lemma destructor_terminates_iff_payload_threw_witness :
  reachable s_stopped_done /\ s_stopped_done.(wpc) = WDone /\
  (BaseWorker_destructor_terminates s_stopped_done.(bw) = true <->
   exists e, s_stopped_done.(future_state) = Some (Raised e)).
Proof.
  split; [exact reachable_s_stopped_done | split; [reflexivity |]].
  exact (destructor_terminates_iff_payload_threw s_stopped_done reachable_s_stopped_done eq_refl).
Defined.

Lemma thrown_payload_blocks_waits_witness :
  reachable s_stop_then_throw /\ payload_threw s_stop_then_throw /\
  steps s_stop_then_throw s_stop_then_throw /\
  s_stop_then_throw.(bw).(status_) = RUNNING /\
  terminal_status s_stop_then_throw.(bw) = false /\
  (s_stop_then_throw.(cpc) = CPauseWait -> s_stop_then_throw.(cpc) = CPauseWait) /\
  (s_stop_then_throw.(cpc) = CStopWait -> s_stop_then_throw.(cpc) = CStopWait).
Proof.
  assert (Ht : payload_threw s_stop_then_throw) by (left; eexists; reflexivity).
  assert (Hs : steps s_stop_then_throw s_stop_then_throw) by apply rt1n_refl.
  split; [exact reachable_s_stop_then_throw | split; [exact Ht | split; [exact Hs |]]].
  exact (thrown_payload_blocks_waits s_stop_then_throw s_stop_then_throw
           reachable_s_stop_then_throw Ht Hs).
Defined.

Lemma fibonacci_slow_all_continue_witness :
  (forall j : nat, (fun _ => true) j = true) /\
  fibonacci_slow true (fun _ => true) 10 0 = (u64 (Z.of_nat (fib 10)), 0 + (fib 11 - 1)) /\
  fibonacci_slow true (fun _ => true) 10 0 = (55%Z, 88).
Proof.
  assert (Ht : forall j : nat, (fun _ => true) j = true) by (intros j; reflexivity).
  split; [exact Ht | split].
  - exact (fibonacci_slow_all_continue true (fun _ => true) 10 0 Ht).
  - vm_compute. reflexivity.
Defined.

Lemma fibonacci_slow_stop_bound_witness :
  (forall j, 5 <= j -> Nat.ltb j 5 = false) /\
  (INT_MIN <= -3 <= INT_MAX)%Z /\ ((-3 < 0)%Z -> (INT_MIN + 2 * Z.of_nat 5 <= -3)%Z) /\
  exists r, fibonacci_slow_int false (fun j => Nat.ltb j 5) (5 + Z.to_nat (-3) + 1) (-3) 0 = Some r /\
    snd r <= (if (0 <=? -3)%Z then 5 + Z.to_nat (-3) else 2 * 5 + 1).
Proof.
  assert (Hk : forall j, 5 <= j -> Nat.ltb j 5 = false) by (intros j Hj; apply Nat.ltb_ge; lia).
  assert (Hr : (INT_MIN <= -3 <= INT_MAX)%Z) by (unfold INT_MIN, INT_MAX; lia).
  assert (Hn : (-3 < 0)%Z -> (INT_MIN + 2 * Z.of_nat 5 <= -3)%Z) by (intros _; unfold INT_MIN; lia).
  split; [exact Hk | split; [exact Hr | split; [exact Hn |]]].
  exact (fibonacci_slow_stop_bound false (fun j => Nat.ltb j 5) 5 (-3) Hk Hr Hn).
Defined.

Lemma selection_sort_all_continue_witness :
  (forall j : nat, (fun _ => true) j = true) /\
  Sorted Z.le (fst (selection_sort (fun _ => true) [3; 1; 2; 1]%Z)) /\
  Permutation [3; 1; 2; 1]%Z (fst (selection_sort (fun _ => true) [3; 1; 2; 1]%Z)) /\
  length (snd (selection_sort (fun _ => true) [3; 1; 2; 1]%Z)) = length [3; 1; 2; 1]%Z.
Proof.
  assert (Ht : forall j : nat, (fun _ => true) j = true) by (intros j; reflexivity).
  split; [exact Ht |].
  exact (selection_sort_all_continue (fun _ => true) [3; 1; 2; 1]%Z Ht).
Defined.

Lemma split_command_join_runs_witness :
  no_delim "pause" = true /\
  Forall run_then_word [(String " " (String (ascii_of_nat 9) (String " " EmptyString)), "2")] /\
  split_command (join_runs "pause"
    [(String " " (String (ascii_of_nat 9) (String " " EmptyString)), "2")]) = ["pause"; "2"].
Proof.
  assert (Hw : no_delim "pause" = true) by reflexivity.
  assert (Hall : Forall run_then_word
                   [(String " " (String (ascii_of_nat 9) (String " " EmptyString)), "2")]).
  { constructor; [| constructor].
    unfold run_then_word; simpl. split; [discriminate | split; [reflexivity | split; [discriminate | reflexivity]]]. }
  split; [exact Hw | split; [exact Hall |]].
  exact (split_command_join_runs "pause" _ Hw Hall).
Defined.

Lemma cli_leading_blank_ignored_witness :
  is_delim " " = true /\
  execute_command 3 (split_command EmptyString) = CliNothing /\
  execute_command 3 (split_command (String " " "status")) = CliNothing.
Proof.
  assert (Hc : is_delim " " = true) by reflexivity.
  split; [exact Hc |].
  exact (cli_leading_blank_ignored 3 " " "status" Hc).
Defined.

Lemma cli_trailing_blank_no_action_witness :
  is_delim " " = true /\
  (execute_command 3 (split_command ("status" ++ String " " EmptyString)) = CliNothing \/
   exists msg, execute_command 3 (split_command ("status" ++ String " " EmptyString)) = CliPrint msg) /\
  execute_command 3 (split_command ("status" ++ String " " EmptyString)) =
    CliPrint "Second argument should be a number".
Proof.
  assert (Hc : is_delim " " = true) by reflexivity.
  split; [exact Hc | split].
  - exact (cli_trailing_blank_no_action 3 "status" " " Hc).
  - vm_compute. reflexivity.
Defined.

Lemma cli_control_only_valid_id_witness :
  execute_command 3 ["pause"; "2"] = CliControl OpPause 1 /\
  1 < 3 /\ exists arg, ["pause"; "2"] = [control_word OpPause; arg] /\ stoi arg = StoiOk (Z.of_nat 2).
Proof.
  assert (H : execute_command 3 ["pause"; "2"] = CliControl OpPause 1) by (vm_compute; reflexivity).
  split; [exact H |].
  exact (cli_control_only_valid_id 3 ["pause"; "2"] OpPause 1 H).
Defined.

Lemma cli_id_trailing_text_ignored_witness :
  "2" <> EmptyString /\ all_digits "2" = true /\ starts_with_digit "abc" = false /\
  execute_command 3 ["pause"; "2" ++ "abc"] = execute_command 3 ["pause"; "2"] /\
  execute_command 3 ["pause"; "2"] = CliControl OpPause 1.
Proof.
  assert (Hne : "2" <> EmptyString) by discriminate.
  assert (Hs : all_digits "2" = true) by reflexivity.
  assert (Hr : starts_with_digit "abc" = false) by reflexivity.
  split; [exact Hne | split; [exact Hs | split; [exact Hr | split]]].
  - exact (cli_id_trailing_text_ignored 3 "pause" "2" "abc" Hne Hs Hr).
  - vm_compute. reflexivity.
Defined.

End WorkerFacts.
